(** * Monte_Carlo: the Metropolis-Hastings notebook and its companions

    A shallow embedding of

    - [metropolis_algorithm], [log_exponential] and
      [candidate_generating_density] of [Metropolis-Hastings_exponential.ipynb],
    - [rng_lambda], [proposal] and [density_generator] of
      [Verify_RNGs_with_lambdas.ipynb],
    - the inverse-transform expression [-(1 / param) * np.log(1 - u)] of
      [Monte_Carlo_transformation_of_random_variables.ipynb] and of the
      Metropolis-Hastings notebook.

    Numbers held in NumPy arrays, and Python floats, are binary64 floats
    ([PrimFloat.float]); Python integers are [Z].  NumPy itself is outside the repository: its
    logarithm and its [RandomState] generator are an interface ([NumPy]),
    with a scripted instance used to run the code on concrete inputs. *)

From Stdlib Require Import ZArith QArith Floats.
From stdpp Require Import gmap list.

Set Warnings "-inexact-float".

(** ** Python values, exceptions, output *)

Inductive exn :=
| ValueError          (* np.zeros: negative dimensions are not allowed *)
| ZeroDivisionError.  (* int / int with a zero divisor *)

Inductive outcome (A : Type) :=
| Return (a : A)
| Raise (e : exn).
Arguments Return {A} a.
Arguments Raise {A} e.

(** What a call hands back to its caller. *)
Inductive value :=
| Ndarray (a : list float)
| Number (q : Q)
| Tuple (v1 v2 : value).

(** A line written by [print]: the f-string [Acceptance rate {accepted/n}].
    The quotient is kept exact; its rounding to a float and its decimal
    formatting are not modelled. *)
Inductive line :=
| Acceptance_rate (q : Q).

(** ** The NumPy interface *)

Class NumPy := {
  (** [np.log] on a float64 scalar *)
  np_log : float → float;
  (** the internal state of a [numpy.random.RandomState] object *)
  rstate : Type;
  (** [RandomState(seed)]: the state of a freshly seeded generator *)
  RandomState : Z → rstate;
  (** [.uniform(low, high)]: the draw and the advanced state *)
  rs_uniform : float → float → rstate → float * rstate;
  (** [.normal()]: the draw and the advanced state *)
  rs_normal : rstate → float * rstate;
}.

(** A scripted generator: the state is the queue of raw draws still to
    come; [uniform(low, high)] scales a raw draw of [[0,1)], [normal()]
    hands the raw draw out as it is.  An exhausted script keeps giving 0. *)
Module Scripted.

Definition script_of_seed (seed : Z) : list float :=
  if (seed =? 1729)%Z then [0.25; 0.5; 0.75; 0.75; -2; 0.25; 0.125]%float
  else if (seed =? 88)%Z then [0.5; 0.25]%float
  else [].

Definition uniform (low high : float) (g : list float) : float * list float :=
  match g with
  | [] => (low, [])
  | u :: g' => ((low + (high - low) * u)%float, g')
  end.

Definition normal (g : list float) : float * list float :=
  match g with
  | [] => (0%float, [])
  | z :: g' => (z, g')
  end.

(** [np.log] at the arguments the examples feed it (the correctly rounded
    values); elsewhere nan. *)
Definition log_table (u : float) : float :=
  if (u =? 0)%float then neg_infinity
  else if (u =? 1)%float then 0%float
  else if (u =? 2)%float then 0.6931471805599453%float
  else if (u =? 0.5)%float then (-0.6931471805599453)%float
  else if (u =? 0.25)%float then (-1.3862943611198906)%float
  else if (u =? 0.75)%float then (-0.2876820724517809)%float
  else if (u =? 0.125)%float then (-2.0794415416798357)%float
  else nan.

Definition numpy : NumPy :=
  {| np_log := log_table;
     rstate := list float;
     RandomState := script_of_seed;
     rs_uniform := uniform;
     rs_normal := normal |}.

End Scripted.

(** ** The object store

    Generators are objects: a closure that mentions [rng] holds a reference
    to one, and every draw through any alias advances the one object.  A
    Python reference always denotes a live object; a location outside the
    store reads as a generator seeded with 0. *)

Abbreviation loc := positive.

Section Code.
Context `{NP : NumPy}.

#[local] Instance rstate_inhabited : Inhabited rstate :=
  populate (RandomState 0).

Abbreviation heap := (gmap loc rstate).

(** [rng.uniform(low, high)] *)
Definition uniform (rng : loc) (low high : float) (h : heap) : float * heap :=
  let '(u, g) := rs_uniform low high (h !!! rng) in
  (u, <[rng := g]> h).

(** [rng.normal()] *)
Definition normal (rng : loc) (h : heap) : float * heap :=
  let '(z, g) := rs_normal (h !!! rng) in
  (z, <[rng := g]> h).

(** [RandomState(seed)] as an expression: a new object. *)
Definition new_RandomState (seed : Z) (h : heap) : loc * heap :=
  let l := fresh (dom h) in
  (l, <[l := RandomState seed]> h).

(** A Python callable of one float argument, with access to the store,
    that returns a float64.  The lambdas of the notebooks are float
    arithmetic and generator draws: they return floats, and none of them
    raises. *)
Definition callable := float → heap → float * heap.

(** [np.zeros(n)] *)
Definition np_zeros (n : Z) : outcome (list float) :=
  if (n <? 0)%Z then Raise ValueError
  else Return (replicate (Z.to_nat n) 0%float).

(** [a / b] on Python integers *)
Definition true_div (a b : Z) : outcome Q :=
  if (b =? 0)%Z then Raise ZeroDivisionError
  else Return (inject_Z a / inject_Z b)%Q.

(** [range(n)] *)
Definition range (n : Z) : list nat := seq 0 (Z.to_nat n).

(** [for i in idx: st = body(i, st)] *)
Fixpoint for_in {St : Type} (idx : list nat) (body : nat → St → St) (st : St) : St :=
  match idx with
  | [] => st
  | i :: rest => for_in rest body (body i st)
  end.

(** [candidate >= 0] *)
Definition support_check (c : float) : bool := (0 <=? c)%float.

(** *** Metropolis-Hastings_exponential.ipynb *)

(** The local variables of [metropolis_algorithm] that the loop updates. *)
Record frame := Frame {
  var_x : float;
  var_chain : list float;
  var_accepted : Z;
}.

(** What one iteration did, kept as a log next to the program state:
    the state it started from, the candidate, the uniform draw if one was
    made, the arguments [logtarget] was called with (in call order),
    the branch taken, and the state after the decision. *)
Record step_info := Step {
  s_index : nat;
  s_before : float;
  s_candidate : float;
  s_drawn : option float;
  s_evaluated : list float;
  s_accept : bool;
  s_after : float;
}.

Record machine := Machine {
  m_frame : frame;
  m_heap : heap;
  m_log : list step_info;
}.

(** The body of the [for] loop: [candidate = ...] up to [chain[i] = x].
    The operands of the comparison are evaluated left to right: the
    uniform draw first, then [logtarget(candidate)], then [logtarget(x)].
    The index [i] runs over [range(n)] on an array of [n] slots, where
    NumPy's item assignment and the list update agree. *)
Definition loop_body (rng : loc) (logtarget : float → float)
    (candidate_generating_density : callable)
    (i : nat) (m : machine) : machine :=
  let x := var_x (m_frame m) in
  let accepted := var_accepted (m_frame m) in
  let '(candidate, h1) := candidate_generating_density x (m_heap m) in
  let '(x', accepted', h', drawn, evaluated, taken) :=
    if support_check candidate then
      let '(u, h2) := uniform rng 0 1 h1 in
      if (np_log u <? logtarget candidate - logtarget x)%float then
        (candidate, (accepted + 1)%Z, h2, Some u, [candidate; x], true)
      else
        (x, accepted, h2, Some u, [candidate; x], false)
    else
      (x, accepted, h1, None, [], false) in
  {| m_frame := {| var_x := x';
                   var_chain := <[i := x']> (var_chain (m_frame m));
                   var_accepted := accepted' |};
     m_heap := h';
     m_log := m_log m ++ [Step i x candidate drawn evaluated taken x'] |}.

(** The result of a call: what it returned or raised, the store it left,
    the lines it printed, and the log of its iterations. *)
Record run := Run {
  returned : outcome value;
  final_heap : heap;
  stdout : list line;
  steps : list step_info;
}.

Definition metropolis_algorithm (rng : loc) (chain_start : float) (n : Z)
    (logtarget : float → float) (candidate_generating_density : callable)
    (h : heap) : run :=
  let x := chain_start in
  match np_zeros n with
  | Raise e => Run (Raise e) h [] []
  | Return chain =>
    let accepted := 0%Z in
    let m := for_in (range n)
               (loop_body rng logtarget candidate_generating_density)
               (Machine (Frame x chain accepted) h []) in
    match true_div (var_accepted (m_frame m)) n with
    | Raise e => Run (Raise e) (m_heap m) [] (m_log m)
    | Return rate =>
      Run (Return (Ndarray (var_chain (m_frame m)))) (m_heap m)
          [Acceptance_rate rate] (m_log m)
    end
  end.

(** [log_exponential = lambda x: np.log(param) - param * x] *)
Definition log_exponential (param : float) (x : float) : float :=
  (np_log param - param * x)%float.

(** [candidate_generating_density = lambda x: x + 0.60 * rng.normal()],
    with the captured generator and the scale as parameters. *)
Definition candidate_generating_density (rng : loc) (scale : float) : callable :=
  fun x h =>
    let '(z, h') := normal rng h in
    ((x + scale * z)%float, h').

(** *** Verify_RNGs_with_lambdas.ipynb *)

(** The body of the loop of [rng_lambda]: the variables are [x] and
    [chain].  The callable returns a float64, so that the value kept in [x]
    and the value stored in the float64 array are the same. *)
Definition rng_lambda_body (candidate_generating_density : callable)
    (i : nat) (st : float * list float * heap) : float * list float * heap :=
  let '(x, chain, h) := st in
  let '(x', h') := candidate_generating_density x h in
  (x', <[i := x']> chain, h').

Definition rng_lambda (n : Z) (candidate_generating_density : callable)
    (h : heap) : outcome value * heap :=
  let x := 0%float in
  match np_zeros n with
  | Raise e => (Raise e, h)
  | Return chain =>
    let '(_, chain', h') :=
      for_in (range n) (rng_lambda_body candidate_generating_density)
             (x, chain, h) in
    (Return (Ndarray chain'), h')
  end.

(** [proposal = lambda x: rng.uniform(low=-1, high=1)]: the closure holds
    a reference to the generator [rng]. *)
Definition proposal (rng : loc) : callable :=
  fun _ h => uniform rng (-1) 1 h.

(** [density_generator = lambda x: RandomState(1729).uniform(low=-1, high=1)]:
    every call builds a generator of its own. *)
Definition density_generator : callable :=
  fun _ h =>
    let '(g, h1) := new_RandomState 1729 h in
    uniform g (-1) 1 h1.

(** The first [k] draws of [uniform(low, high)] from a generator in state
    [g], and the state they leave it in. *)
Fixpoint draws (low high : float) (k : nat) (g : rstate) : list float :=
  match k with
  | O => []
  | S k' => let '(u, g') := rs_uniform low high g in u :: draws low high k' g'
  end.

Fixpoint advance (low high : float) (k : nat) (g : rstate) : rstate :=
  match k with
  | O => g
  | S k' => advance low high k' (snd (rs_uniform low high g))
  end.

(** *** Notions the properties are stated with *)

(** The state the sampler is in after the iterations logged in [ss]. *)
Definition state_after (chain_start : float) (ss : list step_info) : float :=
  default chain_start (last (s_after <$> ss)).

(** The entry before index [i]: the initial state when [i = 0]. *)
Definition previous (chain_start : float) (chain : list float) (i : nat) : float :=
  match i with
  | O => chain_start
  | S j => default chain_start (chain !! j)
  end.

(** The number of iterations that took the accepting branch. *)
Definition accepted_count (ss : list step_info) : Z :=
  Z.of_nat (length (filter (λ s, s_accept s = true) ss)).


(** The three ways through the loop body, as shapes of a log entry:
    candidate outside the support; inside and accepted; inside and
    rejected by the comparison. *)
Inductive step_shape (logtarget : float → float) : step_info → Prop :=
| shape_outside i x c :
    support_check c = false →
    step_shape logtarget (Step i x c None [] false x)
| shape_accepted i x c u :
    support_check c = true →
    (np_log u <? logtarget c - logtarget x)%float = true →
    step_shape logtarget (Step i x c (Some u) [c; x] true c)
| shape_rejected i x c u :
    support_check c = true →
    (np_log u <? logtarget c - logtarget x)%float = false →
    step_shape logtarget (Step i x c (Some u) [c; x] false x).

(** The log is a chain of iterations: entry [i] is iteration [i] and starts
    where the entries before it ended. *)
Definition linked (chain_start : float) (ss : list step_info) : Prop :=
  ∀ i s, ss !! i = Some s →
    s_index s = i ∧ s_before s = state_after chain_start (take i ss).

(** The loop invariant of [metropolis_algorithm] after [k] of the [N]
    iterations. *)
Record loop_invariant (chain_start : float) (logtarget : float → float)
    (N k : nat) (m : machine) : Prop := {
  inv_length : length (m_log m) = k;
  inv_chain : var_chain (m_frame m)
              = (s_after <$> m_log m) ++ replicate (N - k) 0%float;
  inv_x : var_x (m_frame m) = state_after chain_start (m_log m);
  inv_accepted : var_accepted (m_frame m) = accepted_count (m_log m);
  inv_linked : linked chain_start (m_log m);
  inv_shape : Forall (step_shape logtarget) (m_log m);
}.

(** Readings of the specification that the code is compared with. *)

(** Every argument [logtarget] was called with passes the support check. *)
Definition logtarget_only_on_support (r : run) : Prop :=
  Forall (λ s, Forall (λ a, support_check a = true) (s_evaluated s)) (steps r).

(** No entry of the chain is the failing proposal of its own iteration. *)
Definition failing_proposals_never_recorded (r : run) (chain : list float) : Prop :=
  ∀ i s, steps r !! i = Some s →
    support_check (s_candidate s) = false →
    chain !! i ≠ Some (s_candidate s).

(** An iteration whose uniform draw is exactly 0 rejects, whatever the
    finite log-ratio: the state and the counter stay as they were. *)
Definition zero_draw_rejects (logtarget : float → float) (m m' : machine) : Prop :=
  ∀ s, last (m_log m') = Some s →
    s_drawn s = Some 0%float →
    is_finite (logtarget (s_candidate s) - logtarget (s_before s)) = true →
    var_x (m_frame m') = var_x (m_frame m) ∧
    var_accepted (m_frame m') = var_accepted (m_frame m).

(** Two stores hold generators in the same state behind the references the
    two runs use for the uniform and for the normal draws. *)
Definition same_sources (ru1 rn1 ru2 rn2 : loc) (h1 h2 : heap) : Prop :=
  h1 !!! ru1 = h2 !!! ru2 ∧ h1 !!! rn1 = h2 !!! rn2.

(** The contract of the specification: the call returns the pair of the
    chain and the acceptance rate. *)
Definition returns_chain_and_rate (r : run) (chain : list float) (rate : Q) : Prop :=
  returned r = Return (Tuple (Ndarray chain) (Number rate)).

End Code.

(** ** The notebook's call on scripted generators *)

Module Notebook.

#[local] Existing Instance Scripted.numpy.

(** Two generator objects, both seeded with 1729. *)
Definition store : gmap loc (@rstate Scripted.numpy) :=
  {[ 1%positive := Scripted.script_of_seed 1729;
     2%positive := Scripted.script_of_seed 1729 ]}.

(** [metropolis_algorithm(rng, chain_start, n, log_exponential,
    candidate_generating_density)] with [param = 2] and the scale 0.60 of
    the notebook; the closure draws from the same [rng]. *)
Definition call (rng : loc) (chain_start : float) (n : Z)
    (h : gmap loc (@rstate Scripted.numpy)) : run :=
  metropolis_algorithm rng chain_start n (log_exponential 2)
    (candidate_generating_density rng 0.6) h.

(** A generator whose next normal draw is 0.25 and whose next uniform draw
    is exactly 0. *)
Definition store_zero_uniform : gmap loc (@rstate Scripted.numpy) :=
  {[ 1%positive := [0.25; 0]%float ]}.

(** The machine at the start of the first iteration of a one-step run from
    0.5. *)
Definition machine_zero_uniform : machine :=
  Machine (Frame 0.5 [0%float] 0) store_zero_uniform [].

(** The log entry of the iteration [machine_zero_uniform] is about to
    run: candidate 0.5 + 0.6 * 0.25, uniform draw 0, accepted. *)
Definition step_zero_uniform : step_info :=
  Step 0 0.5 (0.5 + 0.6 * 0.25) (Some 0%float)
       [(0.5 + 0.6 * 0.25)%float; 0.5%float] true (0.5 + 0.6 * 0.25).

(** A generator whose next normal draw is 2, then a uniform draw of 0.5. *)
Definition store_jump : gmap loc (@rstate Scripted.numpy) :=
  {[ 1%positive := [2; 0.5]%float ]}.

(** A generator whose next normal draw is exactly 0. *)
Definition store_still : gmap loc (@rstate Scripted.numpy) :=
  {[ 1%positive := [0%float] ]}.

End Notebook.

(** ** The inverse-transform samples *)

Section InverseTransform.
Context `{NP : NumPy}.

(** One entry of [-(1 / param) * np.log(1 - rng.rand(n))]: the draw [u] is
    a float64, [1 / param] is the Python quotient (a float, for the
    integers 1 and 2 of the notebooks the exact one), and the negation,
    the subtraction and the product are binary64 operations. *)
Definition inverse_transform (param u : float) : float :=
  (- (1 / param) * np_log (1 - u))%float.

(** The array expression over the array of draws. *)
Definition exponential_rvs (param : float) (us : list float) : list float :=
  inverse_transform param <$> us.

End InverseTransform.

(** ** Slices of the chain

    The cell after the sampler keeps the second half of the chain and then
    every tenth value: [chain[chain.size // 2:]] and [chain[::10]]. *)

(** The elements at positions [skip], [skip + step], [skip + 2 * step], ...
    of an array, for a step of at least 1. *)
Fixpoint every_from {A : Type} (step skip : nat) (a : list A) : list A :=
  match a with
  | [] => []
  | x :: rest =>
    match skip with
    | O => x :: every_from step (step - 1) rest
    | S k => every_from step k rest
    end
  end.

(** [a[::step]] for [step >= 1]; NumPy refuses a step of 0. *)
Definition slice_step {A : Type} (step : nat) (a : list A) : list A :=
  every_from step 0 a.

(** [a[a.size // 2:]] *)
Definition second_half {A : Type} (a : list A) : list A :=
  drop (length a / 2) a.

(** The two slicings of the notebook, in its order. *)
Definition burn_in_and_thin {A : Type} (chain : list A) : list A :=
  slice_step 10 (second_half chain).

Section Calls.
Context `{NP : NumPy}.

(** The values [k] successive calls of a callable return when each call is
    given the value of the one before it, starting from [x]; with them the
    last value and the store the calls leave. *)
Fixpoint calls (f : callable) (k : nat) (x : float) (h : gmap loc rstate)
    : list float * float * gmap loc rstate :=
  match k with
  | O => ([], x, h)
  | S k' =>
    let '(x', h') := f x h in
    let '(vs, xl, hl) := calls f k' x' h' in
    (x' :: vs, xl, hl)
  end.

End Calls.

(** * Properties *)

Section Properties.
Context `{NP : NumPy}.

#[local] Existing Instance rstate_inhabited.

Abbreviation heap := (gmap loc rstate).

(** ** Loops *)

Lemma for_in_snoc {St : Type} (idx : list nat) (i : nat)
    (body : nat → St → St) (st : St) :
  for_in (idx ++ [i]) body st = body i (for_in idx body st).
Proof.
  revert st. induction idx as [|j idx IH]; intros st; simpl.
  - reflexivity.
  - apply IH.
Qed.

Lemma for_in_seq_S {St : Type} (k : nat) (body : nat → St → St) (st : St) :
  for_in (seq 0 (S k)) body st = body k (for_in (seq 0 k) body st).
Proof. rewrite seq_S. simpl. apply for_in_snoc. Qed.

Lemma np_zeros_nonneg (n : Z) :
  (0 <= n)%Z → np_zeros n = Return (replicate (Z.to_nat n) 0%float).
Proof.
  intros Hn. unfold np_zeros.
  destruct (Z.ltb_spec n 0) as [Hlt|_]; [lia | reflexivity].
Qed.

Lemma np_zeros_negative (n : Z) :
  (n < 0)%Z → np_zeros n = Raise ValueError.
Proof.
  intros Hn. unfold np_zeros.
  destruct (Z.ltb_spec n 0) as [_|Hge]; [reflexivity | lia].
Qed.

(** ** The log *)

Lemma state_after_nil (x0 : float) : state_after x0 [] = x0.
Proof. reflexivity. Qed.

Lemma state_after_snoc (x0 : float) (ss : list step_info) (s : step_info) :
  state_after x0 (ss ++ [s]) = s_after s.
Proof. unfold state_after. rewrite fmap_app. simpl. by rewrite last_snoc. Qed.

Lemma state_after_take_S (x0 : float) (ss : list step_info) (i : nat) (s : step_info) :
  ss !! i = Some s → state_after x0 (take (S i) ss) = s_after s.
Proof.
  intros Hs. rewrite (take_S_r _ _ _ Hs). apply state_after_snoc.
Qed.

Lemma accepted_count_snoc (ss : list step_info) (s : step_info) :
  accepted_count (ss ++ [s])
  = (accepted_count ss + (if s_accept s then 1 else 0))%Z.
Proof.
  unfold accepted_count. rewrite filter_app, length_app.
  rewrite Nat2Z.inj_add. f_equal.
  destruct (s_accept s) eqn:E.
  - rewrite filter_cons_True by done. reflexivity.
  - rewrite filter_cons_False by (rewrite E; discriminate). reflexivity.
Qed.

Lemma linked_nil (x0 : float) : linked x0 [].
Proof. intros i s Hs. by rewrite lookup_nil in Hs. Qed.

Lemma linked_snoc (x0 : float) (ss : list step_info) (s : step_info) :
  linked x0 ss →
  s_index s = length ss →
  s_before s = state_after x0 ss →
  linked x0 (ss ++ [s]).
Proof.
  intros Hl Hi Hb i t Ht.
  apply lookup_app_Some in Ht as [Ht | [Hlen Ht]].
  - destruct (Hl i t Ht) as [Hidx Hbef]. split; [done|].
    rewrite take_app_le by (apply Nat.lt_le_incl, (lookup_lt_Some _ _ _ Ht)).
    exact Hbef.
  - apply list_lookup_singleton_Some in Ht as [Hz ->].
    assert (i = length ss) as -> by lia.
    split; [done|]. by rewrite take_app_length.
Qed.

Lemma linked_take (x0 : float) (ss : list step_info) (k : nat) :
  linked x0 ss → linked x0 (take k ss).
Proof.
  intros Hl i s Hs.
  apply lookup_take_Some in Hs as [Hs Hlt].
  destruct (Hl i s Hs) as [Hidx Hbef]. split; [done|].
  rewrite take_take. by replace (i `min` k) with i by lia.
Qed.

(** ** One iteration *)

(** What the loop body does to the machine, whatever branch it takes. *)
Lemma loop_body_step (rng : loc) (logtarget : float → float) (cgd : callable)
    (i : nat) (m : machine) :
  ∃ s, m_log (loop_body rng logtarget cgd i m) = m_log m ++ [s]
     ∧ s_index s = i
     ∧ s_before s = var_x (m_frame m)
     ∧ s_candidate s = fst (cgd (var_x (m_frame m)) (m_heap m))
     ∧ step_shape logtarget s
     ∧ var_x (m_frame (loop_body rng logtarget cgd i m)) = s_after s
     ∧ var_chain (m_frame (loop_body rng logtarget cgd i m))
       = <[i := s_after s]> (var_chain (m_frame m))
     ∧ var_accepted (m_frame (loop_body rng logtarget cgd i m))
       = (var_accepted (m_frame m) + (if s_accept s then 1 else 0))%Z.
Proof.
  unfold loop_body.
  destruct (cgd (var_x (m_frame m)) (m_heap m)) as [c h1]; simpl.
  destruct (support_check c) eqn:Hc.
  - destruct (uniform rng 0 1 h1) as [u h2].
    destruct (np_log u <? logtarget c - logtarget (var_x (m_frame m)))%float eqn:Hlt;
      simpl; eexists; repeat split; simpl; try reflexivity.
    + by apply shape_accepted.
    + by apply shape_rejected.
    + lia.
  - simpl. eexists; repeat split; simpl; try reflexivity.
    + by apply shape_outside.
    + lia.
Qed.


(** ** The loop invariant *)

Lemma invariant_init (chain_start : float) (logtarget : float → float)
    (N : nat) (h : heap) :
  loop_invariant chain_start logtarget N 0
    (Machine (Frame chain_start (replicate N 0%float) 0) h []).
Proof.
  split; simpl.
  - reflexivity.
  - by rewrite Nat.sub_0_r.
  - reflexivity.
  - reflexivity.
  - apply linked_nil.
  - constructor.
Qed.

Lemma invariant_step (rng : loc) (chain_start : float)
    (logtarget : float → float) (cgd : callable) (N k : nat) (m : machine) :
  k < N →
  loop_invariant chain_start logtarget N k m →
  loop_invariant chain_start logtarget N (S k) (loop_body rng logtarget cgd k m).
Proof.
  intros Hk [Hlen Hchain Hx Hacc Hlink Hshape].
  destruct (loop_body_step rng logtarget cgd k m)
    as (s & Hlog & Hidx & Hbef & _ & Hs & Hx' & Hchain' & Hacc').
  split.
  - rewrite Hlog, length_app. simpl. lia.
  - rewrite Hchain', Hlog, Hchain, fmap_app. simpl.
    replace (N - k) with (S (N - S k)) by lia. simpl.
    rewrite <- (assoc_L (++)). simpl.
    replace k with (length (s_after <$> m_log m) + 0) at 1
      by (rewrite length_fmap; lia).
    by rewrite insert_app_r.
  - by rewrite Hx', Hlog, state_after_snoc.
  - by rewrite Hacc', Hlog, accepted_count_snoc, Hacc.
  - rewrite Hlog. apply linked_snoc; [done | lia | congruence].
  - rewrite Hlog. apply Forall_app. split; [done | by constructor].
Qed.

Lemma invariant_loop (rng : loc) (chain_start : float)
    (logtarget : float → float) (cgd : callable) (N k : nat) (h : heap) :
  k ≤ N →
  loop_invariant chain_start logtarget N k
    (for_in (seq 0 k) (loop_body rng logtarget cgd)
       (Machine (Frame chain_start (replicate N 0%float) 0) h [])).
Proof.
  induction k as [|k IH]; intros Hk.
  - apply invariant_init.
  - rewrite for_in_seq_S. apply invariant_step; [lia | apply IH; lia].
Qed.

(** A run of at least one step returns, and its parts are those of the
    machine the loop ends in. *)
Lemma run_of_positive (rng : loc) (chain_start : float) (n : Z)
    (logtarget : float → float) (cgd : callable) (h : heap) :
  (1 <= n)%Z →
  ∃ m, loop_invariant chain_start logtarget (Z.to_nat n) (Z.to_nat n) m
     ∧ metropolis_algorithm rng chain_start n logtarget cgd h
       = Run (Return (Ndarray (s_after <$> m_log m))) (m_heap m)
             [Acceptance_rate (inject_Z (accepted_count (m_log m)) / inject_Z n)]
             (m_log m).
Proof.
  intros Hn.
  pose proof (invariant_loop rng chain_start logtarget cgd
                (Z.to_nat n) (Z.to_nat n) h (le_n _)) as Hinv.
  eexists. split; [exact Hinv|].
  unfold metropolis_algorithm. rewrite np_zeros_nonneg by lia.
  unfold range, true_div.
  destruct (Z.eqb_spec n 0) as [->|_]; [lia|].
  destruct Hinv as [_ Hchain _ Hacc _ _].
  rewrite Hchain, Hacc, Nat.sub_diag. simpl. by rewrite app_nil_r.
Qed.

(** ** The chain *)

(** The entry before index [i] of the chain is the state iteration [i]
    started from. *)
Lemma previous_is_before (chain_start : float) (ss : list step_info)
    (i : nat) (s : step_info) :
  linked chain_start ss →
  ss !! i = Some s →
  previous chain_start (s_after <$> ss) i = s_before s.
Proof.
  intros Hl Hs. destruct (Hl i s Hs) as [_ ->].
  destruct i as [|j]; simpl.
  - by rewrite take_0.
  - destruct (lookup_lt_is_Some_2 ss j) as [t Ht].
    { apply lookup_lt_Some in Hs. lia. }
    rewrite list_lookup_fmap, Ht. simpl.
    symmetry. by apply state_after_take_S.
Qed.


(** C3: with n = 0 the call does not return: the loop runs no iteration,
    and the quotient [accepted/n] of the [print] raises ZeroDivisionError
    before anything is printed or returned. *)
Theorem zero_steps_raise (rng : loc) (chain_start : float)
    (logtarget : float → float) (cgd : callable) (h : heap) :
  metropolis_algorithm rng chain_start 0 logtarget cgd h
  = Run (Raise ZeroDivisionError) h [] [].
Proof. reflexivity. Qed.

(** C4, as the code has it: a run of n >= 1 steps returns the chain alone,
    an array of n entries, and prints one line with the acceptance rate,
    the number of accepted iterations divided by n. *)
Theorem chain_returned_rate_printed (rng : loc) (chain_start : float)
    (n : Z) (logtarget : float → float) (cgd : callable) (h : heap) :
  (1 <= n)%Z →
  ∃ chain,
    returned (metropolis_algorithm rng chain_start n logtarget cgd h)
      = Return (Ndarray chain)
    ∧ length chain = Z.to_nat n
    ∧ stdout (metropolis_algorithm rng chain_start n logtarget cgd h)
      = [Acceptance_rate
           (inject_Z (accepted_count
              (steps (metropolis_algorithm rng chain_start n logtarget cgd h)))
            / inject_Z n)].
Proof.
  intros Hn.
  destruct (run_of_positive rng chain_start n logtarget cgd h Hn)
    as (m & [Hlen _ _ _ _ _] & ->).
  simpl. exists (s_after <$> m_log m).
  split; [reflexivity|]. split; [by rewrite length_fmap | reflexivity].
Qed.

(** C7: with n < 0 the call fails in [np.zeros] with ValueError, Python's
    invalid-argument exception; no chain is returned, nothing is printed,
    no iteration runs and the store is left as it was. *)
Theorem negative_steps_raise (rng : loc) (chain_start : float) (n : Z)
    (logtarget : float → float) (cgd : callable) (h : heap) :
  (n < 0)%Z →
  metropolis_algorithm rng chain_start n logtarget cgd h
  = Run (Raise ValueError) h [] [].
Proof.
  intros Hn. unfold metropolis_algorithm.
  by rewrite np_zeros_negative.
Qed.

(** ** The support *)

Lemma steps_of_run (rng : loc) (chain_start : float) (n : Z)
    (logtarget : float → float) (cgd : callable) (h : heap) :
  linked chain_start (steps (metropolis_algorithm rng chain_start n logtarget cgd h))
  ∧ Forall (step_shape logtarget)
      (steps (metropolis_algorithm rng chain_start n logtarget cgd h)).
Proof.
  unfold metropolis_algorithm, np_zeros.
  destruct (Z.ltb_spec n 0) as [Hlt|Hge]; simpl.
  - split; [apply linked_nil | constructor].
  - pose proof (invariant_loop rng chain_start logtarget cgd
                  (Z.to_nat n) (Z.to_nat n) h (le_n _))
      as [_ _ _ _ Hlink Hshape].
    unfold range. by destruct (true_div _ n).
Qed.

(** From a start inside the support the sampler never leaves it. *)
Lemma state_in_support (chain_start : float) (logtarget : float → float)
    (ss : list step_info) :
  support_check chain_start = true →
  linked chain_start ss →
  Forall (step_shape logtarget) ss →
  support_check (state_after chain_start ss) = true.
Proof.
  intros H0. induction ss as [|s ss IH] using rev_ind; intros Hl Hsh.
  - done.
  - rewrite state_after_snoc.
    apply Forall_app in Hsh as [Hss Hs]. apply Forall_inv in Hs.
    assert (s_before s = state_after chain_start ss) as Hbef.
    { destruct (Hl (length ss) s) as [_ Hb].
      - by rewrite list_lookup_middle.
      - by rewrite take_app_length in Hb. }
    assert (support_check (s_before s) = true) as Hin.
    { rewrite Hbef. apply IH; [|done].
      replace ss with (take (length ss) (ss ++ [s])) by apply take_app_length.
      by apply linked_take. }
    clear Hl Hbef. revert Hin. destruct Hs; simpl; intros Hin; done.
Qed.

Lemma before_in_support (chain_start : float) (logtarget : float → float)
    (ss : list step_info) (i : nat) (s : step_info) :
  support_check chain_start = true →
  linked chain_start ss →
  Forall (step_shape logtarget) ss →
  ss !! i = Some s →
  support_check (s_before s) = true ∧ support_check (s_after s) = true.
Proof.
  intros H0 Hl Hsh Hs. split.
  - destruct (Hl i s Hs) as [_ ->].
    apply (state_in_support _ logtarget);
      [done | by apply linked_take | by apply Forall_take].
  - rewrite <- (state_after_take_S chain_start ss i s Hs).
    apply (state_in_support _ logtarget);
      [done | by apply linked_take | by apply Forall_take].
Qed.

(** C5, as the code has it: when the initial state passes the support
    check, [logtarget] is only ever called with arguments that pass it;
    and whatever the initial state, an iteration whose candidate fails the
    check is rejected without any call of [logtarget] (and without a
    uniform draw), the state staying as it was. *)
Theorem logtarget_called_on_support (rng : loc) (chain_start : float) (n : Z)
    (logtarget : float → float) (cgd : callable) (h : heap) :
  (support_check chain_start = true →
     logtarget_only_on_support
       (metropolis_algorithm rng chain_start n logtarget cgd h))
  ∧ (∀ s, s ∈ steps (metropolis_algorithm rng chain_start n logtarget cgd h) →
       support_check (s_candidate s) = false →
       s_accept s = false ∧ s_evaluated s = [] ∧ s_drawn s = None
       ∧ s_after s = s_before s).
Proof.
  destruct (steps_of_run rng chain_start n logtarget cgd h) as [Hl Hsh].
  split.
  - intros H0. unfold logtarget_only_on_support.
    apply Forall_lookup. intros i s Hs.
    destruct (before_in_support _ _ _ i s H0 Hl Hsh Hs) as [Hb _].
    pose proof (Forall_lookup_1 _ _ _ _ Hsh Hs) as Hshape.
    destruct Hshape; simpl in *; repeat constructor; done.
  - intros s Hin Hc.
    pose proof (proj1 (Forall_forall _ _) Hsh s Hin) as Hshape.
    destruct Hshape; simpl in *; try done; congruence.
Qed.

(** C6, as the code has it: in a run of n >= 1 steps every chain entry
    passes the support check or equals the previous entry (the initial
    state at index 0); the entry of an iteration whose proposal fails the
    check is the previous entry; and when the initial state passes the
    check, every entry passes it, so that no entry is the failing proposal
    of its own iteration. *)
Theorem entries_supported_or_repeated (rng : loc) (chain_start : float) (n : Z)
    (logtarget : float → float) (cgd : callable) (h : heap) :
  (1 <= n)%Z →
  ∃ chain,
    returned (metropolis_algorithm rng chain_start n logtarget cgd h)
      = Return (Ndarray chain)
    ∧ (∀ i, i < Z.to_nat n →
        ∃ s v,
          steps (metropolis_algorithm rng chain_start n logtarget cgd h) !! i
            = Some s
          ∧ chain !! i = Some v
          ∧ (support_check v = true ∨ v = previous chain_start chain i)
          ∧ (support_check (s_candidate s) = false →
               v = previous chain_start chain i))
    ∧ (support_check chain_start = true →
         Forall (λ v, support_check v = true) chain
         ∧ failing_proposals_never_recorded
             (metropolis_algorithm rng chain_start n logtarget cgd h) chain).
Proof.
  intros Hn.
  destruct (run_of_positive rng chain_start n logtarget cgd h Hn)
    as (m & [Hlen _ _ _ Hlink Hshape] & ->).
  simpl. exists (s_after <$> m_log m).
  split; [reflexivity|]. split.
  - intros i Hi.
    destruct (lookup_lt_is_Some_2 (m_log m) i) as [s Hs]; [lia|].
    exists s, (s_after s). split; [done|].
    rewrite list_lookup_fmap, Hs. split; [done|].
    rewrite (previous_is_before chain_start _ i s Hlink Hs).
    pose proof (Forall_lookup_1 _ _ _ _ Hshape Hs) as Hsh.
    destruct Hsh; simpl in *; split; auto; congruence.
  - intros H0.
    assert (∀ i s, m_log m !! i = Some s → support_check (s_after s) = true)
      as Hafter.
    { intros i s Hs.
      by destruct (before_in_support _ _ _ i s H0 Hlink Hshape Hs). }
    split.
    + apply Forall_lookup. intros i v Hv.
      rewrite list_lookup_fmap in Hv.
      destruct (m_log m !! i) as [s|] eqn:Hs; [|done].
      simpl in Hv. injection Hv as <-. by apply (Hafter i).
    + intros i s Hs Hc. simpl in Hs.
      rewrite list_lookup_fmap, Hs. simpl. intros [= Heq].
      pose proof (Hafter i s Hs) as Ha. congruence.
Qed.

(** ** A uniform draw of exactly 0 *)

Lemma neg_infinity_below_finite (r : float) :
  is_finite r = true → (neg_infinity <? r)%float = true.
Proof.
  unfold is_finite, is_nan, is_infinity.
  rewrite FloatAxioms.ltb_spec, !FloatAxioms.eqb_spec, FloatAxioms.abs_spec.
  change (Prim2SF neg_infinity) with (S754_infinity true).
  change (Prim2SF infinity) with (S754_infinity false).
  destruct (Prim2SF r) as [sg|sg| |sg mant e]; simpl;
    try reflexivity; try discriminate.
  destruct sg; discriminate.
Qed.

(** C2, as the code has it: an iteration in which the uniform draw is
    exactly 0, so that its logarithm is minus infinity, accepts whenever
    the log-ratio is finite: the state becomes the candidate and the
    counter goes up by one.  The loop body is a total function: nothing is
    raised. *)
Theorem zero_draw_accepts (rng : loc) (logtarget : float → float)
    (cgd : callable) (i : nat) (m : machine) (s : step_info) :
  np_log 0 = neg_infinity →
  last (m_log (loop_body rng logtarget cgd i m)) = Some s →
  s_drawn s = Some 0%float →
  is_finite (logtarget (s_candidate s) - logtarget (s_before s)) = true →
  s_accept s = true
  ∧ var_x (m_frame (loop_body rng logtarget cgd i m)) = s_candidate s
  ∧ var_accepted (m_frame (loop_body rng logtarget cgd i m))
    = (var_accepted (m_frame m) + 1)%Z.
Proof.
  intros Hlog Hlast Hdrawn Hfin.
  destruct (loop_body_step rng logtarget cgd i m)
    as (t & Hlg & _ & _ & _ & Hsh & Hx & _ & Hacc).
  rewrite Hlg, last_snoc in Hlast. injection Hlast as ->.
  rewrite Hx, Hacc. clear Hlg Hx Hacc.
  apply neg_infinity_below_finite in Hfin.
  destruct Hsh as [j x c Hc | j x c u Hc Hlt | j x c u Hc Hlt]; simpl in *.
  - discriminate.
  - done.
  - injection Hdrawn as ->. rewrite Hlog in Hlt. congruence.
Qed.

(** ** Determinism *)

Section Determinism.
Variables ru1 rn1 ru2 rn2 : loc.
Hypothesis aliasing : ru1 = rn1 ↔ ru2 = rn2.

Lemma same_sources_after_normal (g : rstate) (h1 h2 : heap) :
  same_sources ru1 rn1 ru2 rn2 h1 h2 →
  same_sources ru1 rn1 ru2 rn2 (<[rn1 := g]> h1) (<[rn2 := g]> h2).
Proof.
  intros [Hu Hn]. split.
  - destruct (decide (ru1 = rn1)) as [E1|N1].
    + pose proof (proj1 aliasing E1) as E2. subst ru1 ru2.
      by rewrite !lookup_total_insert_eq.
    + assert (ru2 ≠ rn2) as N2 by (intros E2; apply N1, aliasing, E2).
      by rewrite !lookup_total_insert_ne.
  - by rewrite !lookup_total_insert_eq.
Qed.

Lemma same_sources_after_uniform (g : rstate) (h1 h2 : heap) :
  same_sources ru1 rn1 ru2 rn2 h1 h2 →
  same_sources ru1 rn1 ru2 rn2 (<[ru1 := g]> h1) (<[ru2 := g]> h2).
Proof.
  intros [Hu Hn]. split.
  - by rewrite !lookup_total_insert_eq.
  - destruct (decide (ru1 = rn1)) as [E1|N1].
    + pose proof (proj1 aliasing E1) as E2. subst ru1 ru2.
      by rewrite !lookup_total_insert_eq.
    + assert (ru2 ≠ rn2) as N2 by (intros E2; apply N1, aliasing, E2).
      by rewrite !lookup_total_insert_ne.
Qed.

Lemma loop_body_agree (logtarget : float → float) (scale : float) (i : nat)
    (m1 m2 : machine) :
  m_frame m1 = m_frame m2 →
  m_log m1 = m_log m2 →
  same_sources ru1 rn1 ru2 rn2 (m_heap m1) (m_heap m2) →
  m_frame (loop_body ru1 logtarget (candidate_generating_density rn1 scale) i m1)
  = m_frame (loop_body ru2 logtarget (candidate_generating_density rn2 scale) i m2)
  ∧ m_log (loop_body ru1 logtarget (candidate_generating_density rn1 scale) i m1)
    = m_log (loop_body ru2 logtarget (candidate_generating_density rn2 scale) i m2)
  ∧ same_sources ru1 rn1 ru2 rn2
      (m_heap (loop_body ru1 logtarget (candidate_generating_density rn1 scale) i m1))
      (m_heap (loop_body ru2 logtarget (candidate_generating_density rn2 scale) i m2)).
Proof.
  intros Hf Hl Hs.
  unfold loop_body, candidate_generating_density, normal.
  rewrite Hf, Hl. pose proof Hs as [_ Hn]. rewrite Hn.
  destruct (rs_normal (m_heap m2 !!! rn2)) as [z g].
  pose proof (same_sources_after_normal g _ _ Hs) as Hs1.
  destruct (support_check (var_x (m_frame m2) + scale * z)).
  - unfold uniform. pose proof Hs1 as [Hu1 _]. rewrite Hu1.
    destruct (rs_uniform 0 1 (<[rn2:=g]> (m_heap m2) !!! ru2)) as [u g'].
    pose proof (same_sources_after_uniform g' _ _ Hs1) as Hs2.
    destruct (np_log u <? _)%float; simpl; done.
  - simpl. done.
Qed.

Lemma for_in_agree (logtarget : float → float) (scale : float)
    (idx : list nat) (m1 m2 : machine) :
  m_frame m1 = m_frame m2 →
  m_log m1 = m_log m2 →
  same_sources ru1 rn1 ru2 rn2 (m_heap m1) (m_heap m2) →
  m_frame (for_in idx (loop_body ru1 logtarget (candidate_generating_density rn1 scale)) m1)
  = m_frame (for_in idx (loop_body ru2 logtarget (candidate_generating_density rn2 scale)) m2)
  ∧ m_log (for_in idx (loop_body ru1 logtarget (candidate_generating_density rn1 scale)) m1)
    = m_log (for_in idx (loop_body ru2 logtarget (candidate_generating_density rn2 scale)) m2).
Proof.
  revert m1 m2. induction idx as [|i idx IH]; intros m1 m2 Hf Hl Hs; simpl.
  - done.
  - destruct (loop_body_agree logtarget scale i m1 m2 Hf Hl Hs)
      as (Hf' & Hl' & Hs').
    by apply IH.
Qed.

Lemma runs_agree (chain_start : float) (n : Z) (logtarget : float → float)
    (scale : float) (h1 h2 : heap) :
  same_sources ru1 rn1 ru2 rn2 h1 h2 →
  returned (metropolis_algorithm ru1 chain_start n logtarget
              (candidate_generating_density rn1 scale) h1)
  = returned (metropolis_algorithm ru2 chain_start n logtarget
                (candidate_generating_density rn2 scale) h2)
  ∧ stdout (metropolis_algorithm ru1 chain_start n logtarget
              (candidate_generating_density rn1 scale) h1)
    = stdout (metropolis_algorithm ru2 chain_start n logtarget
                (candidate_generating_density rn2 scale) h2)
  ∧ steps (metropolis_algorithm ru1 chain_start n logtarget
             (candidate_generating_density rn1 scale) h1)
    = steps (metropolis_algorithm ru2 chain_start n logtarget
               (candidate_generating_density rn2 scale) h2).
Proof.
  intros Hs. unfold metropolis_algorithm.
  destruct (np_zeros n) as [chain|e]; [|done].
  destruct (for_in_agree logtarget scale (range n)
              (Machine (Frame chain_start chain 0) h1 [])
              (Machine (Frame chain_start chain 0) h2 [])
              eq_refl eq_refl Hs) as [Hf Hl].
  rewrite Hf, Hl.
  by destruct (true_div _ n).
Qed.

End Determinism.

(** C8: two runs with the same initial state, number of steps, log-density
    and proposal scale, each drawing from generator objects of its own
    that start in the same states as the other run's (as identically
    seeded generators do), return the same chain, float for float; they
    also print the same rate and take the same branches.  The uniform and
    the normal source of a run may be one object, as in the notebook, or
    two, alike in both runs. *)
Theorem identically_seeded_runs_agree (ru1 rn1 ru2 rn2 : loc) (gu gn : rstate)
    (h1 h2 : heap) (chain_start : float) (n : Z) (logtarget : float → float)
    (scale : float) :
  h1 !! ru1 = Some gu → h2 !! ru2 = Some gu →
  h1 !! rn1 = Some gn → h2 !! rn2 = Some gn →
  (ru1 = rn1 ↔ ru2 = rn2) →
  returned (metropolis_algorithm ru1 chain_start n logtarget
              (candidate_generating_density rn1 scale) h1)
  = returned (metropolis_algorithm ru2 chain_start n logtarget
                (candidate_generating_density rn2 scale) h2)
  ∧ stdout (metropolis_algorithm ru1 chain_start n logtarget
              (candidate_generating_density rn1 scale) h1)
    = stdout (metropolis_algorithm ru2 chain_start n logtarget
                (candidate_generating_density rn2 scale) h2)
  ∧ steps (metropolis_algorithm ru1 chain_start n logtarget
             (candidate_generating_density rn1 scale) h1)
    = steps (metropolis_algorithm ru2 chain_start n logtarget
               (candidate_generating_density rn2 scale) h2).
Proof.
  intros Hu1 Hu2 Hn1 Hn2 Hal.
  apply runs_agree; [done|].
  split.
  - by rewrite (lookup_total_correct _ _ _ Hu1), (lookup_total_correct _ _ _ Hu2).
  - by rewrite (lookup_total_correct _ _ _ Hn1), (lookup_total_correct _ _ _ Hn2).
Qed.

(** ** Closures over generators *)

Lemma draws_S_end (low high : float) (k : nat) (g : rstate) :
  draws low high (S k) g
  = draws low high k g ++ [fst (rs_uniform low high (advance low high k g))].
Proof.
  revert g. induction k as [|k IH]; intros g.
  - simpl. by destruct (rs_uniform low high g).
  - specialize (IH (snd (rs_uniform low high g))).
    simpl in *. destruct (rs_uniform low high g) as [u g']. simpl in *.
    by rewrite IH.
Qed.

Lemma advance_S_end (low high : float) (k : nat) (g : rstate) :
  advance low high (S k) g
  = snd (rs_uniform low high (advance low high k g)).
Proof.
  revert g. induction k as [|k IH]; intros g.
  - reflexivity.
  - change (advance low high (S (S k)) g)
      with (advance low high (S k) (snd (rs_uniform low high g))).
    by rewrite IH.
Qed.

Lemma length_draws (low high : float) (k : nat) (g : rstate) :
  length (draws low high k g) = k.
Proof.
  revert g. induction k as [|k IH]; intros g; simpl.
  - reflexivity.
  - destruct (rs_uniform low high g) as [u g']. simpl. by rewrite IH.
Qed.

(** Writing slot [k] of an array whose first [k] slots are filled. *)
Lemma fill_next (done_ : list float) (N k : nat) (v : float) :
  length done_ = k → k < N →
  <[k := v]> (done_ ++ replicate (N - k) 0%float)
  = (done_ ++ [v]) ++ replicate (N - S k) 0%float.
Proof.
  intros Hlen Hk.
  replace (N - k) with (S (N - S k)) by lia. simpl.
  rewrite <- (assoc_L (++)). simpl.
  replace k with (length done_ + 0) at 1 by lia.
  by rewrite insert_app_r.
Qed.

(** A call of [density_generator] gives the first draw of a generator
    seeded with 1729 and leaves the objects of the store alone. *)
Lemma density_generator_call (x : float) (h : heap) :
  fst (density_generator x h) = fst (rs_uniform (-1) 1 (RandomState 1729))
  ∧ ∀ l g, h !! l = Some g → snd (density_generator x h) !! l = Some g.
Proof.
  unfold density_generator, new_RandomState, uniform.
  rewrite lookup_total_insert_eq.
  destruct (rs_uniform (-1) 1 (RandomState 1729)) as [u g']. simpl.
  split; [reflexivity|].
  intros l g Hl.
  assert (fresh (dom h) ≠ l) as Hne.
  { intros <-. apply (is_fresh (dom h)). apply elem_of_dom. eauto. }
  by rewrite !lookup_insert_ne.
Qed.

Lemma fresh_loop (N k : nat) (h : heap) :
  k ≤ N →
  ∃ x h',
    for_in (seq 0 k) (rng_lambda_body density_generator)
      (0%float, replicate N 0%float, h)
    = (x, replicate k (fst (rs_uniform (-1) 1 (RandomState 1729)))
          ++ replicate (N - k) 0%float, h')
    ∧ ∀ l g, h !! l = Some g → h' !! l = Some g.
Proof.
  induction k as [|k IH]; intros Hk.
  - exists 0%float, h. simpl. by rewrite Nat.sub_0_r.
  - destruct IH as (x & h' & Hloop & Hkeep); [lia|].
    rewrite for_in_seq_S, Hloop. unfold rng_lambda_body.
    destruct (density_generator_call x h') as [Hv Hkeep'].
    destruct (density_generator x h') as [v h'']. simpl in Hv, Hkeep'.
    exists v, h''. split.
    + rewrite fill_next by (rewrite ?length_replicate; lia).
      by rewrite replicate_S_end, Hv.
    + intros l g Hl. by apply Hkeep', Hkeep.
Qed.

Lemma shared_loop (rng : loc) (g : rstate) (N k : nat) (h : heap) :
  h !! rng = Some g →
  k ≤ N →
  ∃ x h',
    for_in (seq 0 k) (rng_lambda_body (proposal rng))
      (0%float, replicate N 0%float, h)
    = (x, draws (-1) 1 k g ++ replicate (N - k) 0%float, h')
    ∧ h' !! rng = Some (advance (-1) 1 k g).
Proof.
  intros Hg. induction k as [|k IH]; intros Hk.
  - exists 0%float, h. simpl. by rewrite Nat.sub_0_r.
  - destruct IH as (x & h' & Hloop & Hadv); [lia|].
    rewrite for_in_seq_S, Hloop. unfold rng_lambda_body, proposal, uniform.
    rewrite (lookup_total_correct _ _ _ Hadv).
    rewrite draws_S_end, advance_S_end.
    destruct (rs_uniform (-1) 1 (advance (-1) 1 k g)) as [u g']. simpl.
    eexists _, _. split.
    + by rewrite fill_next by (rewrite ?length_draws; lia).
    + by rewrite lookup_insert_eq.
Qed.

(** C9: driven by the closure that seeds a generator of its own in every
    call, the loop fills all n entries with one value, the first draw of a
    generator seeded with 1729, and the generator object of the caller is
    not touched; driven by the closure that holds a reference to one
    generator object, the entries are the first n successive draws of that
    object, which is left advanced by n draws. *)
Theorem fresh_repeats_shared_advances (n : nat) (rng : loc) (g : rstate)
    (h : heap) :
  h !! rng = Some g →
  (fst (rng_lambda (Z.of_nat n) density_generator h)
     = Return (Ndarray (replicate n (fst (rs_uniform (-1) 1 (RandomState 1729)))))
   ∧ snd (rng_lambda (Z.of_nat n) density_generator h) !! rng = Some g)
  ∧ (fst (rng_lambda (Z.of_nat n) (proposal rng) h)
       = Return (Ndarray (draws (-1) 1 n g))
     ∧ snd (rng_lambda (Z.of_nat n) (proposal rng) h) !! rng
       = Some (advance (-1) 1 n g)).
Proof.
  intros Hg. unfold rng_lambda, range.
  rewrite np_zeros_nonneg by lia. rewrite Nat2Z.id.
  destruct (fresh_loop n n h (le_n _)) as (x1 & h1 & -> & Hkeep).
  destruct (shared_loop rng g n n h Hg (le_n _)) as (x2 & h2 & -> & Hadv).
  rewrite Nat.sub_diag. simpl. rewrite !app_nil_r.
  split; split; try reflexivity; [by apply Hkeep | done].
Qed.

End Properties.

(** ** Binary64 arithmetic

    Facts about the rounding of the Standard Library's specification of
    binary64, as far as the inverse-transform expression needs them. *)

Lemma shr_1_m (mrs : shr_record) :
  (0 <= shr_m mrs)%Z → shr_m (shr_1 mrs) = Z.div2 (shr_m mrs).
Proof.
  destruct mrs as [m r s]. simpl. intros Hm.
  destruct m as [|p|p]; [reflexivity| |lia].
  destruct p; reflexivity.
Qed.

Lemma pow2_xO (p : positive) :
  (2 ^ Zpos p~0 = 2 ^ Zpos p * 2 ^ Zpos p)%Z.
Proof. rewrite <- Z.pow_add_r by lia. f_equal. lia. Qed.

Lemma pow2_xI (p : positive) :
  (2 ^ Zpos p~1 = 2 * (2 ^ Zpos p * 2 ^ Zpos p))%Z.
Proof.
  rewrite <- Z.pow_add_r by lia. rewrite <- Z.pow_succ_r by lia. f_equal. lia.
Qed.

Lemma iter_shr_1_m (p : positive) (mrs : shr_record) :
  (0 <= shr_m mrs)%Z →
  shr_m (SpecFloat.iter_pos shr_1 p mrs) = (shr_m mrs / 2 ^ Zpos p)%Z.
Proof.
  revert mrs. induction p as [p IH|p IH|]; intros mrs Hm; simpl.
  - assert (0 <= shr_m (shr_1 mrs))%Z as H1.
    { rewrite shr_1_m by done. rewrite Z.div2_div. by apply Z.div_pos. }
    assert (0 <= shr_m (SpecFloat.iter_pos shr_1 p (shr_1 mrs)))%Z as H2.
    { rewrite IH by done. apply Z.div_pos; [done|]. by apply Z.pow_pos_nonneg. }
    assert (0 < 2 ^ Zpos p)%Z as Hp by (by apply Z.pow_pos_nonneg).
    rewrite IH, IH, shr_1_m by done. rewrite Z.div2_div.
    rewrite !Z.div_div by lia. by rewrite pow2_xI.
  - assert (0 <= shr_m (SpecFloat.iter_pos shr_1 p mrs))%Z as H2.
    { rewrite IH by done. apply Z.div_pos; [done|]. by apply Z.pow_pos_nonneg. }
    assert (0 < 2 ^ Zpos p)%Z as Hp by (by apply Z.pow_pos_nonneg).
    rewrite IH, IH by done.
    rewrite !Z.div_div by lia. by rewrite pow2_xO.
  - rewrite shr_1_m by done. by rewrite Z.div2_div.
Qed.

Lemma digits2_pos_bounds (m : positive) :
  (2 ^ (Zpos (digits2_pos m) - 1) <= Zpos m < 2 ^ Zpos (digits2_pos m))%Z.
Proof.
  induction m as [m IH|m IH|]; simpl digits2_pos.
  - rewrite Pos2Z.inj_succ. replace (Z.succ (Zpos (digits2_pos m)) - 1)%Z with (Z.succ (Zpos (digits2_pos m) - 1)) by lia.
    rewrite !Z.pow_succ_r by lia. lia.
  - rewrite Pos2Z.inj_succ. replace (Z.succ (Zpos (digits2_pos m)) - 1)%Z with (Z.succ (Zpos (digits2_pos m) - 1)) by lia.
    rewrite !Z.pow_succ_r by lia. lia.
  - simpl. lia.
Qed.

Lemma digits2_pos_unique (p : positive) (k : Z) :
  (2 ^ (k - 1) <= Zpos p < 2 ^ k)%Z → Zpos (digits2_pos p) = k.
Proof.
  intros [Hlo Hhi]. pose proof (digits2_pos_bounds p) as [Dlo Dhi].
  set (d := Zpos (digits2_pos p)) in *.
  assert (0 < d)%Z by (unfold d; lia).
  destruct (Z.lt_trichotomy d k) as [Hlt|[Heq|Hgt]]; [|done|].
  - assert (2 ^ d <= 2 ^ (k - 1))%Z by (apply Z.pow_le_mono_r; lia). lia.
  - destruct (Z.le_gt_cases k 0) as [Hk|Hk].
    + destruct (Z.eq_dec k 0%Z) as [->|Hne].
      * simpl in Hhi. lia.
      * rewrite Z.pow_neg_r in Hhi by lia. lia.
    + assert (2 ^ k <= 2 ^ (d - 1))%Z by (apply Z.pow_le_mono_r; lia). lia.
Qed.

Lemma digits2_pos_iter_xO (p k : positive) :
  Zpos (digits2_pos (Pos.iter xO p k)) = (Zpos (digits2_pos p) + Zpos k)%Z.
Proof.
  induction k as [|k IH] using Pos.peano_ind.
  - simpl. lia.
  - rewrite Pos.iter_succ. simpl digits2_pos. rewrite Pos2Z.inj_succ, IH. lia.
Qed.

Lemma Pos_iter_xO (a d : positive) :
  Zpos (Pos.iter xO a d) = (Zpos a * 2 ^ Zpos d)%Z.
Proof.
  induction d as [|d IH] using Pos.peano_ind.
  - simpl. lia.
  - rewrite Pos.iter_succ, Pos2Z.inj_xO, IH, Pos2Z.inj_succ.
    rewrite Z.pow_succ_r by lia. lia.
Qed.

Lemma shr_record_of_loc_m (m : Z) (l : location) :
  shr_m (shr_record_of_loc m l) = m.
Proof. destruct l as [|[]]; reflexivity. Qed.

Lemma shr_m_nonneg (mrs : shr_record) (e n : Z) :
  (0 <= shr_m mrs)%Z → (0 <= shr_m (fst (shr mrs e n)))%Z.
Proof.
  intros Hm. destruct n as [|p|p]; simpl; try done.
  rewrite iter_shr_1_m by done. apply Z.div_pos; [done|]. by apply Z.pow_pos_nonneg.
Qed.

Lemma shr_fexp_nonneg (m e : Z) (l : location) :
  (0 <= m)%Z → (0 <= shr_m (fst (shr_fexp prec emax m e l)))%Z.
Proof.
  intros Hm. unfold shr_fexp. apply shr_m_nonneg. by rewrite shr_record_of_loc_m.
Qed.

Lemma round_nearest_even_bounds (m : Z) (l : location) :
  (m <= round_nearest_even m l <= m + 1)%Z.
Proof.
  destruct l as [|[]]; simpl; try lia. destruct (Z.even m); lia.
Qed.

Lemma binary_round_aux_nonneg (sx : bool) (m e : Z) (l : location) :
  (0 <= m)%Z →
  binary_round_aux prec emax sx m e l = S754_zero sx
  ∨ binary_round_aux prec emax sx m e l = S754_infinity sx
  ∨ ∃ m' e', binary_round_aux prec emax sx m e l = S754_finite sx m' e'.
Proof.
  intros Hm. unfold binary_round_aux.
  pose proof (shr_fexp_nonneg m e l Hm) as H1.
  destruct (shr_fexp prec emax m e l) as [mrs' e']. simpl in H1.
  pose proof (round_nearest_even_bounds (shr_m mrs') (loc_of_shr_record mrs')) as Hr.
  pose proof (shr_fexp_nonneg (round_nearest_even (shr_m mrs') (loc_of_shr_record mrs')) e' loc_Exact) as H2.
  destruct (shr_fexp prec emax _ e' loc_Exact) as [mrs'' e'']. simpl in H2.
  destruct (shr_m mrs'') as [|q|q]; [by left| |lia].
  destruct (e'' <=? emax - prec)%Z; [right; right; eauto | right; by left].
Qed.

(** A mantissa that needs no shift is kept as it is. *)
Lemma binary_round_aux_exact (sx : bool) (M : positive) (e : Z) :
  (fexp prec emax (Zpos (digits2_pos M) + e) <= e)%Z →
  (e <= 971)%Z →
  binary_round_aux prec emax sx (Zpos M) e loc_Exact = S754_finite sx M e.
Proof.
  intros Hf He. unfold binary_round_aux, shr_fexp, shr. simpl Zdigits2.
  destruct (fexp prec emax (Zpos (digits2_pos M) + e) - e)%Z eqn:En; [| lia |];
    cbn [shr_record_of_loc loc_of_shr_record round_nearest_even shr_m Zdigits2];
    rewrite En;
    cbn [shr_record_of_loc shr_m];
    (destruct (Z.leb_spec e (emax - prec)) as [_|Hgt];
       [reflexivity | unfold emax, prec in Hgt; lia]).
Qed.

(** Rounding a positive value below 1 gives a float that is at most 1. *)
Lemma round_below_one (D : positive) (e : Z) :
  (-1074 <= e <= -52)%Z → (Zpos D < 2 ^ (- e))%Z →
  ∃ m' e', binary_round prec emax false D e = S754_finite false m' e'
         ∧ (e' < -52 ∨ (e' = -52 ∧ Zpos m' <= 4503599627370496))%Z.
Proof.
  intros He HD.
  pose proof (digits2_pos_bounds D) as [Dlo Dhi].
  set (d := Zpos (digits2_pos D)) in *.
  assert (0 < d)%Z as Hd0 by (unfold d; lia).
  assert (d <= - e)%Z as Hd.
  { destruct (Z.le_gt_cases d (- e)) as [|Hgt]; [done|].
    assert (2 ^ (- e) <= 2 ^ (d - 1))%Z by (apply Z.pow_le_mono_r; lia). lia. }
  unfold binary_round, shl_align. fold d.
  assert (fexp prec emax (d + e) = Z.max (d + e - 53) (-1074)) as Hfexp by reflexivity.
  destruct (fexp prec emax (d + e) - e)%Z as [|k|k] eqn:Ek.
  - (* the mantissa is canonical as it is *)
    exists D, e. split.
    + apply binary_round_aux_exact; fold d; lia.
    + destruct (Z.eq_dec e (-52)%Z) as [->|]; [|lia].
      right. split; [done|]. change (2 ^ (- (-52)))%Z with 4503599627370496%Z in HD. lia.
  - (* the mantissa is rounded to 53 bits *)
    assert (Zpos k = d - 53)%Z as Hk by lia.
    unfold binary_round_aux.
    assert (shr_fexp prec emax (Zpos D) e loc_Exact
            = (SpecFloat.iter_pos shr_1 k (shr_record_of_loc (Zpos D) loc_Exact), (e + Zpos k)%Z)) as ->.
    { unfold shr_fexp, shr. simpl Zdigits2. fold d. by rewrite Ek. }
    set (mrs := SpecFloat.iter_pos shr_1 k _).
    assert (shr_m mrs = Zpos D / 2 ^ Zpos k)%Z as Hm1.
    { unfold mrs. by rewrite iter_shr_1_m. }
    assert (2 ^ 52 <= shr_m mrs < 2 ^ 53)%Z as [Hlo Hhi].
    { rewrite Hm1. assert (0 < 2 ^ Zpos k)%Z by (by apply Z.pow_pos_nonneg).
      assert (2 ^ d = 2 ^ 53 * 2 ^ Zpos k)%Z as E1.
      { rewrite <- Z.pow_add_r by lia. f_equal. lia. }
      assert (2 ^ (d - 1) = 2 ^ 52 * 2 ^ Zpos k)%Z as E2.
      { rewrite <- Z.pow_add_r by lia. f_equal. lia. }
      split.
      - apply Z.div_le_lower_bound; lia.
      - apply Z.div_lt_upper_bound; lia. }
    pose proof (round_nearest_even_bounds (shr_m mrs) (loc_of_shr_record mrs)) as Hr.
    set (r := round_nearest_even (shr_m mrs) (loc_of_shr_record mrs)) in *.
    change (2 ^ 52)%Z with 4503599627370496%Z in *.
    change (2 ^ 53)%Z with 9007199254740992%Z in *.
    destruct r as [|rp|rp] eqn:Er; [lia| |lia].
    destruct (Z.eq_dec (Zpos rp) 9007199254740992%Z) as [E53|N53].
    + (* the rounding carried into a 54th bit *)
      injection E53 as ->.
      exists 4503599627370496%positive, (e + Zpos k + 1)%Z. split; [|lia].
      unfold shr_fexp, shr.
      change (Zdigits2 9007199254740992) with 54%Z.
      assert (fexp prec emax (54 + (e + Zpos k)) - (e + Zpos k) = 1)%Z as ->.
      { unfold fexp, SpecFloat.emin, prec, emax. lia. }
      cbn [SpecFloat.iter_pos shr_record_of_loc shr_1 shr_m].
      destruct (Z.leb_spec (e + Zpos k + 1) (emax - prec)) as [_|Hgt];
        [reflexivity | unfold emax, prec in Hgt; lia].
    + exists rp, (e + Zpos k)%Z. split; [|lia].
      assert (Zpos (digits2_pos rp) = 53)%Z as Hdr.
      { apply digits2_pos_unique.
        change (2 ^ (53 - 1))%Z with 4503599627370496%Z.
        change (2 ^ 53)%Z with 9007199254740992%Z. lia. }
      unfold shr_fexp, shr.
      change (Zdigits2 (Zpos rp)) with (Zpos (digits2_pos rp)). rewrite Hdr.
      assert (fexp prec emax (53 + (e + Zpos k)) - (e + Zpos k) = 0)%Z as ->.
      { unfold fexp, SpecFloat.emin, prec, emax. lia. }
      cbn [shr_record_of_loc shr_m].
      destruct (Z.leb_spec (e + Zpos k) (emax - prec)) as [_|Hgt];
        [reflexivity | unfold emax, prec in Hgt; lia].
  - (* the mantissa is shifted left to its canonical exponent *)
    exists (Pos.iter xO D k), (fexp prec emax (d + e)). split.
    + apply binary_round_aux_exact.
      * rewrite digits2_pos_iter_xO. fold d.
        replace (d + Zpos k + fexp prec emax (d + e))%Z with (d + e)%Z by lia. lia.
      * lia.
    + lia.
Qed.

Lemma Prim2SF_one : Prim2SF 1 = S754_finite false 4503599627370496 (-52).
Proof. reflexivity. Qed.

Lemma Prim2SF_zero : Prim2SF 0 = S754_zero false.
Proof. reflexivity. Qed.

(** Shapes of a float behind a comparison with 0. *)
Ltac shape_cases H :=
  split; intros H;
  [ try discriminate H; eauto 6
  | try reflexivity; decompose [or ex] H; congruence ].

Lemma nonneg_shape (x : float) :
  (0 <=? x)%float = true ↔
  (∃ s, Prim2SF x = S754_zero s) ∨ Prim2SF x = S754_infinity false
  ∨ ∃ m e, Prim2SF x = S754_finite false m e.
Proof.
  rewrite FloatAxioms.leb_spec, Prim2SF_zero.
  destruct (Prim2SF x) as [s|[]| |[] m e]; simpl; shape_cases H.
Qed.

Lemma pos_shape (x : float) :
  (0 <? x)%float = true ↔
  Prim2SF x = S754_infinity false ∨ ∃ m e, Prim2SF x = S754_finite false m e.
Proof.
  rewrite FloatAxioms.ltb_spec, Prim2SF_zero.
  destruct (Prim2SF x) as [s|[]| |[] m e]; simpl; shape_cases H.
Qed.

Lemma finite_nonpos_shape (x : float) :
  is_finite x = true → (x <=? 0)%float = true →
  (∃ s, Prim2SF x = S754_zero s) ∨ ∃ m e, Prim2SF x = S754_finite true m e.
Proof.
  unfold is_finite, is_nan, is_infinity.
  rewrite FloatAxioms.leb_spec, !FloatAxioms.eqb_spec, FloatAxioms.abs_spec, Prim2SF_zero.
  change (Prim2SF infinity) with (S754_infinity false).
  destruct (Prim2SF x) as [s|[]| |[] m e]; simpl; intros Hf Hle;
    try discriminate; eauto.
Qed.

Lemma le_one_shape (x : float) (m : positive) (e : Z) :
  Prim2SF x = S754_finite false m e →
  (e < -52 ∨ (e = -52 ∧ Zpos m <= 4503599627370496))%Z →
  (x <=? 1)%float = true.
Proof.
  intros Hx Hme. rewrite FloatAxioms.leb_spec, Prim2SF_one, Hx.
  unfold SFleb, SFcompare.
  destruct (Z.compare_spec e (-52)) as [->|Hlt|Hgt]; [|done|lia].
  destruct Hme as [?|[_ Hm]]; [lia|].
  rewrite Pos.compare_cont_spec. simpl Pos.switch_Eq.
  destruct (Pos.compare_spec m 4503599627370496); try done. lia.
Qed.

(** The reciprocal of a positive float is not negative and not nan. *)
Lemma reciprocal_shape (p : float) :
  (0 <? p)%float = true →
  Prim2SF (1 / p) = S754_zero false ∨ Prim2SF (1 / p) = S754_infinity false
  ∨ ∃ m e, Prim2SF (1 / p) = S754_finite false m e.
Proof.
  intros Hp. rewrite FloatAxioms.div_spec, Prim2SF_one.
  apply pos_shape in Hp as [->|(m & e & ->)]; [by left|].
  unfold SF64div, SFdiv, SFdiv_core_binary.
  set (s := (-52 - e - _)%Z).
  set (m' := match s with Z0 => _ | Zpos _ => _ | Zneg _ => _ end).
  assert (0 <= m')%Z as Hm'.
  { unfold m'. destruct s; [lia| |lia]. by apply Z.shiftl_nonneg. }
  assert (0 <= fst (Z.div_eucl m' (Zpos m)))%Z as Hq.
  { change (fst (Z.div_eucl m' (Zpos m))) with (m' / Zpos m)%Z.
    by apply Z.div_pos. }
  destruct (Z.div_eucl m' (Zpos m)) as [q r]. simpl in Hq.
  destruct (binary_round_aux_nonneg (xorb false false) q
              (Z.min (fexp prec emax
                        (Zdigits2 (Zpos 4503599627370496) + -52
                         - (Zdigits2 (Zpos m) + e))) (-52 - e))
              (new_location (Zpos m) r) Hq)
    as [H|[H|(m1 & e1 & H)]]; rewrite H; eauto.
Qed.

(** The opposite of a finite float that is not negative is finite and not
    positive. *)
Lemma opp_of_nonnegative (r : float) :
  is_finite r = true → (0 <=? r)%float = true →
  is_finite (- r) = true ∧ (- r <=? 0)%float = true.
Proof.
  unfold is_finite, is_nan, is_infinity.
  rewrite !FloatAxioms.leb_spec, !FloatAxioms.eqb_spec, !FloatAxioms.abs_spec,
    !FloatAxioms.opp_spec, Prim2SF_zero.
  change (Prim2SF infinity) with (S754_infinity false).
  destruct (Prim2SF r) as [s|[]| |[] m e]; simpl; intros Hf Hle;
    try discriminate; try done.
  unfold SFeqb, SFleb, SFcompare in *.
  by rewrite Z.compare_refl, Pos.compare_cont_refl in *.
Qed.

(** A product of two floats that are finite and not positive is not
    negative and not nan. *)
Lemma product_of_nonpositive (c l : float) :
  is_finite c = true → (c <=? 0)%float = true →
  is_finite l = true → (l <=? 0)%float = true →
  (0 <=? c * l)%float = true.
Proof.
  intros Hcf Hc Hlf Hl. apply nonneg_shape. rewrite FloatAxioms.mul_spec.
  destruct (finite_nonpos_shape c Hcf Hc) as [[sc ->]|(mc & ec & ->)];
    destruct (finite_nonpos_shape l Hlf Hl) as [[sl ->]|(ml & el & ->)];
    unfold SF64mul, SFmul; eauto.
  destruct (binary_round_aux_nonneg (xorb true true) (Zpos (mc * ml))
              (ec + el) loc_Exact) as [H|[H|(m1 & e1 & H)]];
    [lia | rewrite H ..]; eauto.
Qed.

(** In binary64, [1 - u] lies in (0,1] for every [u] of [[0,1)]. *)
Lemma one_minus_draw_in_unit (u : float) :
  (0 <=? u)%float = true → (u <? 1)%float = true →
  (0 <? 1 - u)%float = true ∧ (1 - u <=? 1)%float = true.
Proof.
  intros H0 H1.
  assert (∃ m' e', Prim2SF (1 - u) = S754_finite false m' e'
                 ∧ (e' < -52 ∨ (e' = -52 ∧ Zpos m' <= 4503599627370496))%Z)
    as (m' & e' & Hshape & Hle).
  { rewrite FloatAxioms.sub_spec, Prim2SF_one.
    pose proof (Prim2SF_valid u) as Hval.
    rewrite FloatAxioms.ltb_spec, Prim2SF_one in H1.
    apply nonneg_shape in H0 as [[s Hu]|[Hu|(m & e & Hu)]]; rewrite Hu in *.
    - eexists _, _. split; [reflexivity|]. right. split; [reflexivity|lia].
    - done.
    - unfold FloatAxioms.valid_binary, valid_binary, bounded, canonical_mantissa in Hval.
      apply andb_prop in Hval as [Hcan _]. apply Z.eqb_eq in Hcan.
      unfold fexp, SpecFloat.emin, prec, emax in Hcan.
      unfold SFltb, SFcompare in H1.
      assert (e <= -52)%Z as He.
      { destruct (Z.compare_spec e (-52)); try lia; done. }
      unfold SF64sub, SFsub, cond_Zopp.
      rewrite Z.min_r by lia.
      assert (fst (shl_align m e e) = m) as ->.
      { unfold shl_align. by rewrite Z.sub_diag. }
      assert (Zpos m < Zpos (fst (shl_align 4503599627370496 (-52) e))
              ∧ Zpos (fst (shl_align 4503599627370496 (-52) e)) = 2 ^ (- e))%Z
        as [Hlt HA].
      { unfold shl_align.
        destruct (e - -52)%Z as [|d|d] eqn:Ed; cbn [fst].
        - assert (e = -52)%Z as -> by lia. split; [|reflexivity].
          destruct (Pos.compare_cont Eq m 4503599627370496) eqn:Ec; done.
        - lia.
        - rewrite Pos_iter_xO.
          change 4503599627370496%Z with (2 ^ 52)%Z.
          rewrite <- Z.pow_add_r by lia.
          replace (52 + Zpos d)%Z with (- e)%Z by lia. split; [|done].
          pose proof (digits2_pos_bounds m) as [_ Hm].
          eapply Z.lt_le_trans; [exact Hm|]. apply Z.pow_le_mono_r; lia. }
      destruct (Zpos (fst (shl_align 4503599627370496 (-52) e)) - Zpos m)%Z
        as [|D|D] eqn:ED; try lia.
      cbn [binary_normalize].
      apply round_below_one; lia. }
  split.
  - apply pos_shape. eauto.
  - by apply (le_one_shape _ m' e').
Qed.

(** The sign of an inverse-transform sample. *)
Lemma sample_nonnegative (param l : float) :
  (0 <? param)%float = true → is_finite (1 / param) = true →
  is_finite l = true → (l <=? 0)%float = true →
  (0 <=? - (1 / param) * l)%float = true.
Proof.
  intros Hp Hfin Hlf Hl.
  assert ((0 <=? 1 / param)%float = true) as Hr.
  { apply nonneg_shape.
    destruct (reciprocal_shape param Hp) as [H|[H|(m & e & H)]]; rewrite H; eauto. }
  destruct (opp_of_nonnegative _ Hfin Hr) as [Hcf Hc].
  by apply product_of_nonpositive.
Qed.

(** ** The inverse-transform samples *)

(** On binary64 the extreme draw is the largest float below 1; there the
    argument of the logarithm is the smallest it can be. *)
Example one_minus_largest_draw :
  (0x1.fffffffffffffp-1 <? 1)%float = true
  ∧ (1 - 0x1.fffffffffffffp-1 =? 0x1p-53)%float = true.
Proof. vm_compute. split; reflexivity. Qed.

(** The rates of the notebooks have finite reciprocals. *)
Example notebook_rates :
  is_finite (1 / 1) = true ∧ is_finite (1 / 2) = true.
Proof. vm_compute. split; reflexivity. Qed.

(** C10, as the code has it: for float64 draws u in [0,1) the argument
    1 - u of the logarithm lies in (0,1], so the logarithm is never taken
    of a non-positive number, whatever the rate; and for a rate param > 0
    whose reciprocal 1 / param is finite, [np.log] giving a finite value
    that is not positive at these arguments (as the logarithm does on
    (0,1]), every sample -(1/param) * log(1 - u) passes the support check
    [0 <= x], entry by entry of the sampled array: it is not nan and not
    negative (a product that overflows is +infinity). *)
Theorem inverse_transform_samples_in_support `{NP : NumPy} (param : float)
    (us : list float) :
  Forall (λ u, (0 <=? u)%float = true ∧ (u <? 1)%float = true) us →
  Forall (λ u, (0 <? 1 - u)%float = true ∧ (1 - u <=? 1)%float = true) us
  ∧ length (exponential_rvs param us) = length us
  ∧ ((0 <? param)%float = true →
     is_finite (1 / param) = true →
     Forall (λ u, is_finite (np_log (1 - u)) = true
                  ∧ (np_log (1 - u) <=? 0)%float = true) us →
     Forall (λ x, support_check x = true) (exponential_rvs param us)).
Proof.
  intros Hus. unfold exponential_rvs. split; [|split].
  - eapply Forall_impl; [exact Hus|].
    intros u [Hu0 Hu1]. by apply one_minus_draw_in_unit.
  - by rewrite length_fmap.
  - intros Hp Hfin Hlog. apply Forall_fmap, Forall_forall.
    intros u Hu. rewrite Forall_forall in Hlog.
    destruct (Hlog u Hu) as [Hlf Hl].
    by apply sample_nonnegative.
Qed.

(** * The code on concrete inputs *)

#[local] Existing Instance Scripted.numpy.

(** Four steps of the notebook's call: an acceptance, a rejection by the
    comparison, a candidate outside the support, an acceptance. *)
Example notebook_chain :
  returned (Notebook.call 1 0.5 4 Notebook.store)
  = Return (Ndarray [0.5 + 0.6 * 0.25; 0.5 + 0.6 * 0.25; 0.5 + 0.6 * 0.25;
                     0.5 + 0.6 * 0.25 + 0.6 * 0.25]%float)
  ∧ s_accept <$> steps (Notebook.call 1 0.5 4 Notebook.store)
    = [true; false; false; true]
  ∧ s_drawn <$> steps (Notebook.call 1 0.5 4 Notebook.store)
    = [Some 0.5; Some 0.75; None; Some 0.125]%float
  ∧ stdout (Notebook.call 1 0.5 4 Notebook.store)
    = [Acceptance_rate (inject_Z 2 / inject_Z 4)].
Proof. vm_compute. repeat split. Qed.

(** A second run through the generator object the first run used starts
    from the advanced state, and its chain is another one. *)
Example shared_source_runs_differ :
  returned (Notebook.call 1 0.5 2 Notebook.store)
  = Return (Ndarray [0.5 + 0.6 * 0.25; 0.5 + 0.6 * 0.25]%float)
  ∧ returned (Notebook.call 1 0.5 2
                (final_heap (Notebook.call 1 0.5 2 Notebook.store)))
    = Return (Ndarray [0.5; 0.5 + 0.6 * 0.25]%float).
Proof. vm_compute. split; reflexivity. Qed.

Example lambda_chains :
  fst (rng_lambda 3 (proposal 1) Notebook.store)
  = Return (Ndarray [-0.5; 0; 0.5]%float)
  ∧ fst (rng_lambda 3 density_generator Notebook.store)
    = Return (Ndarray [-0.5; -0.5; -0.5]%float).
Proof. vm_compute. split; reflexivity. Qed.


Lemma zero_draw_accepts_witness :
  np_log 0 = neg_infinity
  ∧ last (m_log (loop_body 1 (log_exponential 2)
                   (candidate_generating_density 1 0.6) 0
                   Notebook.machine_zero_uniform))
    = Some Notebook.step_zero_uniform
  ∧ s_drawn Notebook.step_zero_uniform = Some 0%float
  ∧ is_finite (log_exponential 2 (s_candidate Notebook.step_zero_uniform)
               - log_exponential 2 (s_before Notebook.step_zero_uniform)) = true
  ∧ s_accept Notebook.step_zero_uniform = true
  ∧ var_x (m_frame (loop_body 1 (log_exponential 2)
                      (candidate_generating_density 1 0.6) 0
                      Notebook.machine_zero_uniform))
    = s_candidate Notebook.step_zero_uniform
  ∧ var_accepted (m_frame (loop_body 1 (log_exponential 2)
                             (candidate_generating_density 1 0.6) 0
                             Notebook.machine_zero_uniform))
    = (var_accepted (m_frame Notebook.machine_zero_uniform) + 1)%Z.
Proof.
  split; [reflexivity|]. split; [vm_compute; reflexivity|].
  split; [reflexivity|]. split; [vm_compute; reflexivity|].
  apply (zero_draw_accepts (NP := Scripted.numpy) 1 (log_exponential 2)
           (candidate_generating_density 1 0.6) 0
           Notebook.machine_zero_uniform Notebook.step_zero_uniform);
    vm_compute; reflexivity.
Defined.

(** C2, as stated, fails: in this iteration the uniform draw is exactly 0
    and the log-ratio is finite, yet the state moves to the candidate and
    the counter is incremented. *)
Lemma zero_draw_does_not_reject :
  last (m_log (loop_body 1 (log_exponential 2)
                 (candidate_generating_density 1 0.6) 0
                 Notebook.machine_zero_uniform))
  = Some Notebook.step_zero_uniform
  ∧ ¬ zero_draw_rejects (log_exponential 2) Notebook.machine_zero_uniform
        (loop_body 1 (log_exponential 2)
           (candidate_generating_density 1 0.6) 0
           Notebook.machine_zero_uniform).
Proof.
  split; [vm_compute; reflexivity|].
  intros H.
  destruct (H Notebook.step_zero_uniform) as [_ Hacc];
    try (vm_compute; reflexivity).
  vm_compute in Hacc. discriminate Hacc.
Qed.

Lemma chain_returned_rate_printed_witness :
  (1 <= 4)%Z
  ∧ ∃ chain,
      returned (Notebook.call 1 0.5 4 Notebook.store) = Return (Ndarray chain)
      ∧ length chain = Z.to_nat 4
      ∧ stdout (Notebook.call 1 0.5 4 Notebook.store)
        = [Acceptance_rate
             (inject_Z (accepted_count
                          (steps (Notebook.call 1 0.5 4 Notebook.store)))
              / inject_Z 4)].
Proof.
  split; [lia|].
  apply (chain_returned_rate_printed (NP := Scripted.numpy)). lia.
Defined.

(** C4, as stated, fails: what the call returns is the array alone, not a
    pair of the chain and the rate. *)
Lemma rate_is_not_returned :
  ¬ ∃ chain rate,
      returns_chain_and_rate (Notebook.call 1 0.5 4 Notebook.store) chain rate.
Proof.
  intros (chain & rate & H). unfold returns_chain_and_rate in H.
  vm_compute in H. discriminate H.
Qed.

Lemma logtarget_called_on_support_witness :
  support_check 0.5 = true
  ∧ logtarget_only_on_support (Notebook.call 1 0.5 4 Notebook.store)
  ∧ (∀ s, s ∈ steps (Notebook.call 1 0.5 4 Notebook.store) →
       support_check (s_candidate s) = false →
       s_accept s = false ∧ s_evaluated s = [] ∧ s_drawn s = None
       ∧ s_after s = s_before s).
Proof.
  split; [reflexivity|].
  destruct (logtarget_called_on_support (NP := Scripted.numpy) 1 0.5 4
              (log_exponential 2) (candidate_generating_density 1 0.6)
              Notebook.store) as [Hon Hout].
  split; [apply Hon; reflexivity | exact Hout].
Defined.

(** C5, as stated, fails: started from -1, outside the support, with a
    first candidate inside it, the run calls [logtarget] at -1. *)
Lemma logtarget_called_outside_support :
  s_evaluated <$> steps (Notebook.call 1 (-1) 1 Notebook.store_jump)
  = [[-1 + 0.6 * 2; -1]%float]
  ∧ support_check (-1) = false
  ∧ ¬ logtarget_only_on_support (Notebook.call 1 (-1) 1 Notebook.store_jump).
Proof.
  split; [vm_compute; reflexivity|]. split; [reflexivity|].
  intros H. unfold logtarget_only_on_support in H.
  vm_compute in H.
  apply Forall_inv, Forall_inv_tail, Forall_inv in H. discriminate H.
Qed.

Lemma entries_supported_or_repeated_witness :
  (1 <= 4)%Z
  ∧ ∃ chain,
      returned (Notebook.call 1 0.5 4 Notebook.store) = Return (Ndarray chain)
      ∧ (∀ i, i < Z.to_nat 4 →
          ∃ s v,
            steps (Notebook.call 1 0.5 4 Notebook.store) !! i = Some s
            ∧ chain !! i = Some v
            ∧ (support_check v = true ∨ v = previous 0.5 chain i)
            ∧ (support_check (s_candidate s) = false →
                 v = previous 0.5 chain i))
      ∧ (support_check 0.5 = true →
           Forall (λ v, support_check v = true) chain
           ∧ failing_proposals_never_recorded
               (Notebook.call 1 0.5 4 Notebook.store) chain).
Proof.
  split; [lia|].
  apply (entries_supported_or_repeated (NP := Scripted.numpy)). lia.
Defined.

(** C6, as stated, fails: started from -1 with a normal draw of exactly 0,
    the proposal is -1, it fails the support check, and the entry of its
    own iteration is -1. *)
Lemma failing_proposal_recorded :
  returned (Notebook.call 1 (-1) 1 Notebook.store_still)
  = Return (Ndarray [(-1)%float])
  ∧ ¬ failing_proposals_never_recorded
        (Notebook.call 1 (-1) 1 Notebook.store_still) [(-1)%float].
Proof.
  split; [vm_compute; reflexivity|].
  intros H.
  apply (H 0 (Step 0 (-1) (-1) None [] false (-1))); vm_compute; reflexivity.
Qed.

Lemma negative_steps_raise_witness :
  (-1 < 0)%Z
  ∧ Notebook.call 1 0.5 (-1) Notebook.store
    = Run (Raise ValueError) Notebook.store [] [].
Proof.
  split; [lia|].
  apply (negative_steps_raise (NP := Scripted.numpy)). lia.
Defined.

Lemma identically_seeded_runs_agree_witness :
  Notebook.store !! 1%positive = Some (Scripted.script_of_seed 1729)
  ∧ final_heap (Notebook.call 1 0.5 4 Notebook.store) !! 2%positive
    = Some (Scripted.script_of_seed 1729)
  ∧ (1%positive = 1%positive ↔ 2%positive = 2%positive)
  ∧ returned (Notebook.call 1 0.5 4 Notebook.store)
    = returned (Notebook.call 2 0.5 4
                  (final_heap (Notebook.call 1 0.5 4 Notebook.store)))
  ∧ stdout (Notebook.call 1 0.5 4 Notebook.store)
    = stdout (Notebook.call 2 0.5 4
                (final_heap (Notebook.call 1 0.5 4 Notebook.store)))
  ∧ steps (Notebook.call 1 0.5 4 Notebook.store)
    = steps (Notebook.call 2 0.5 4
               (final_heap (Notebook.call 1 0.5 4 Notebook.store))).
Proof.
  split; [reflexivity|]. split; [vm_compute; reflexivity|].
  split; [split; reflexivity|].
  apply (identically_seeded_runs_agree (NP := Scripted.numpy) 1 1 2 2
           (Scripted.script_of_seed 1729) (Scripted.script_of_seed 1729)
           Notebook.store (final_heap (Notebook.call 1 0.5 4 Notebook.store))
           0.5 4 (log_exponential 2) 0.6).
  - reflexivity.
  - vm_compute; reflexivity.
  - reflexivity.
  - vm_compute; reflexivity.
  - split; reflexivity.
Defined.

Lemma fresh_repeats_shared_advances_witness :
  Notebook.store !! 1%positive = Some (Scripted.script_of_seed 1729)
  ∧ (fst (rng_lambda (Z.of_nat 3) density_generator Notebook.store)
       = Return (Ndarray (replicate 3
                            (fst (rs_uniform (-1) 1 (RandomState 1729)))))
     ∧ snd (rng_lambda (Z.of_nat 3) density_generator Notebook.store)
         !! 1%positive
       = Some (Scripted.script_of_seed 1729))
  ∧ (fst (rng_lambda (Z.of_nat 3) (proposal 1) Notebook.store)
       = Return (Ndarray (draws (-1) 1 3 (Scripted.script_of_seed 1729)))
     ∧ snd (rng_lambda (Z.of_nat 3) (proposal 1) Notebook.store) !! 1%positive
       = Some (advance (-1) 1 3 (Scripted.script_of_seed 1729))).
Proof.
  split; [reflexivity|].
  apply (fresh_repeats_shared_advances (NP := Scripted.numpy) 3 1
           (Scripted.script_of_seed 1729) Notebook.store).
  reflexivity.
Defined.

Lemma inverse_transform_samples_in_support_witness :
  Forall (λ u, (0 <=? u)%float = true ∧ (u <? 1)%float = true)
    [0; 0.5]%float
  ∧ (0 <? 2)%float = true
  ∧ is_finite (1 / 2) = true
  ∧ Forall (λ u, is_finite (np_log (1 - u)) = true
                 ∧ (np_log (1 - u) <=? 0)%float = true) [0; 0.5]%float
  ∧ Forall (λ u, (0 <? 1 - u)%float = true ∧ (1 - u <=? 1)%float = true)
      [0; 0.5]%float
  ∧ length (exponential_rvs 2 [0; 0.5]%float) = length [0; 0.5]%float
  ∧ Forall (λ x, support_check x = true) (exponential_rvs 2 [0; 0.5]%float).
Proof.
  assert (Forall (λ u, (0 <=? u)%float = true ∧ (u <? 1)%float = true)
            [0; 0.5]%float) as Hus.
  { repeat constructor. }
  assert (Forall (λ u, is_finite (np_log (1 - u)) = true
                       ∧ (np_log (1 - u) <=? 0)%float = true)
            [0; 0.5]%float) as Hlog.
  { repeat constructor. }
  destruct (inverse_transform_samples_in_support (NP := Scripted.numpy) 2
              [0; 0.5]%float Hus) as (Harg & Hlen & Hsup).
  split; [exact Hus|]. split; [reflexivity|]. split; [reflexivity|].
  split; [exact Hlog|]. split; [exact Harg|]. split; [exact Hlen|].
  apply Hsup; [reflexivity | reflexivity | exact Hlog].
Defined.

(** C10, as stated, fails: the smallest positive float is a rate > 0, its
    reciprocal overflows to infinity, and with the draw 0, where the
    logarithm of 1 - 0 is 0, the sample is -infinity * 0, a nan, which
    does not pass [0 <= x]. *)
Lemma sample_of_tiny_rate_is_nan :
  (0 <? 0x1p-1074)%float = true
  ∧ (0 <=? 0)%float = true ∧ (0 <? 1)%float = true
  ∧ np_log (1 - 0) = 0%float
  ∧ is_nan (inverse_transform 0x1p-1074 0) = true
  ∧ support_check (inverse_transform 0x1p-1074 0) = false.
Proof. vm_compute. repeat split. Qed.

(** A rate with a finite reciprocal can still make the product overflow:
    the sample is then +infinity, which passes [0 <= x]. *)
Example sample_may_overflow :
  (0 <? 0x1p-1023)%float = true
  ∧ is_finite (1 / 0x1p-1023) = true
  ∧ inverse_transform 0x1p-1023 0.875 = infinity
  ∧ support_check (inverse_transform 0x1p-1023 0.875) = true.
Proof. vm_compute. repeat split. Qed.

(** * Further properties of the notebooks *)

(** ** Slicing *)

Lemma lookup_every_from {A : Type} (step skip : nat) (a : list A) (j : nat) :
  0 < step →
  every_from step skip a !! j = a !! (skip + j * step).
Proof.
  intros Hstep. revert skip j.
  induction a as [|x rest IH]; intros skip j.
  - by rewrite !lookup_nil.
  - destruct skip as [|k]; simpl.
    + destruct j as [|j']; simpl; [reflexivity|].
      rewrite IH.
      replace (step + j' * step) with (S (step - 1 + j' * step)) by lia.
      reflexivity.
    + apply IH.
Qed.

Lemma length_every_from {A : Type} (step : nat) (a : list A) :
  0 < step →
  length (every_from step 0 a) = (length a + step - 1) / step.
Proof.
  intros Hstep.
  set (L := length (every_from step 0 a)).
  assert (∀ j, j < L ↔ j * step < length a) as Hchar.
  { intros j. unfold L.
    rewrite <- !lookup_lt_is_Some, lookup_every_from by done. reflexivity. }
  destruct L as [|L'].
  - assert (length a = 0) as ->.
    { destruct (length a) as [|m] eqn:E; [done|].
      exfalso. assert (0 < 0) as H0 by (apply Hchar; lia). lia. }
    symmetry. apply Nat.div_small. lia.
  - pose proof (proj1 (Hchar L') (Nat.lt_succ_diag_r _)) as Hlo.
    assert (¬ S L' * step < length a) as Hhi.
    { intros H. apply Hchar in H. lia. }
    apply (Nat.div_unique _ _ _ (length a + step - 1 - S L' * step)); nia.
Qed.

Lemma lookup_kept {A : Type} (chain : list A) (j : nat) :
  burn_in_and_thin chain !! j = chain !! (length chain / 2 + 10 * j).
Proof.
  unfold burn_in_and_thin, second_half, slice_step.
  rewrite lookup_every_from by lia. rewrite lookup_drop. f_equal. lia.
Qed.

Lemma length_kept {A : Type} (chain : list A) :
  length (burn_in_and_thin chain) = (length chain - length chain / 2 + 9) / 10.
Proof.
  unfold burn_in_and_thin, second_half, slice_step.
  rewrite length_every_from by lia. rewrite length_drop. f_equal. lia.
Qed.

(** X13: the slot [j] of [a[::step]] is the slot [j * step] of [a], present
    in the one exactly when present in the other. *)
Theorem lookup_slice_step {A : Type} (step : nat) (a : list A) (j : nat) :
  0 < step →
  slice_step step a !! j = a !! (j * step).
Proof. intros Hstep. unfold slice_step. by rewrite lookup_every_from. Qed.

Lemma lookup_slice_step_witness :
  0 < 2 ∧ slice_step 2 [10; 11; 12; 13; 14] !! 2 = [10; 11; 12; 13; 14] !! (2 * 2).
Proof. split; [lia|]. apply (lookup_slice_step 2 [10; 11; 12; 13; 14] 2). lia. Defined.

(** X14: [a[::step]] has the ceiling of [len(a) / step] elements. *)
Theorem length_slice_step {A : Type} (step : nat) (a : list A) :
  0 < step →
  length (slice_step step a) = (length a + step - 1) / step.
Proof. intros Hstep. unfold slice_step. by apply length_every_from. Qed.

Lemma length_slice_step_witness :
  0 < 10 ∧ length (slice_step 10 (replicate 25 0%Z)) = (length (replicate 25 0%Z) + 10 - 1) / 10.
Proof. split; [lia|]. apply (length_slice_step 10 (replicate 25 0%Z)). lia. Defined.

(** X15: the sample the notebook keeps: slot [j] of the thinned second half
    is slot [len // 2 + 10 * j] of the chain, and the number of kept values
    is the ceiling of a tenth of the length of the second half. *)
Theorem burn_in_and_thin_slots {A : Type} (chain : list A) :
  (∀ j, burn_in_and_thin chain !! j = chain !! (length chain / 2 + 10 * j))
  ∧ length (burn_in_and_thin chain)
    = (length chain - length chain / 2 + 9) / 10.
Proof. split; [apply lookup_kept | apply length_kept]. Qed.

(** The run of the notebook: of a chain of 1_000_000 entries, 50_000 are
    kept, as the cell prints. *)
Example kept_of_a_million (chain : list float) :
  Z.of_nat (length chain) = 1000000%Z →
  Z.of_nat (length (burn_in_and_thin chain)) = 50000%Z.
Proof.
  intros Hlen. rewrite length_kept.
  rewrite Nat2Z.inj_div, Nat2Z.inj_add, Nat2Z.inj_sub_max, Nat2Z.inj_div.
  rewrite Hlen. reflexivity.
Qed.

Section MoreProperties.
Context `{NP : NumPy}.

#[local] Existing Instance rstate_inhabited.

(** ** [rng_lambda] with any float-valued callable *)

Lemma calls_S_end (f : callable) (k : nat) (x : float) (h : gmap loc rstate) :
  calls f (S k) x h
  = let '(vs, xl, hl) := calls f k x h in
    let '(x', h') := f xl hl in
    (vs ++ [x'], x', h').
Proof.
  revert x h. induction k as [|k IH]; intros x h.
  - simpl. by destruct (f x h).
  - change (calls f (S (S k)) x h)
      with (let '(x', h') := f x h in
            let '(vs, xl, hl) := calls f (S k) x' h' in
            (x' :: vs, xl, hl)).
    change (calls f (S k) x h)
      with (let '(x', h') := f x h in
            let '(vs, xl, hl) := calls f k x' h' in
            (x' :: vs, xl, hl)).
    destruct (f x h) as [x' h']. rewrite IH.
    destruct (calls f k x' h') as [[vs xl] hl].
    by destruct (f xl hl).
Qed.

Lemma length_calls (f : callable) (k : nat) (x : float) (h : gmap loc rstate) :
  length (calls f k x h).1.1 = k.
Proof.
  revert x h. induction k as [|k IH]; intros x h; simpl.
  - reflexivity.
  - destruct (f x h) as [x' h']. specialize (IH x' h').
    destruct (calls f k x' h') as [[vs xl] hl]. simpl in *. by rewrite IH.
Qed.

Lemma calls_loop (f : callable) (N k : nat) (h : gmap loc rstate) :
  k ≤ N →
  for_in (seq 0 k) (rng_lambda_body f) (0%float, replicate N 0%float, h)
  = ((calls f k 0 h).1.2,
     (calls f k 0 h).1.1 ++ replicate (N - k) 0%float,
     (calls f k 0 h).2).
Proof.
  induction k as [|k IH]; intros Hk.
  - simpl. by rewrite Nat.sub_0_r.
  - rewrite for_in_seq_S, IH by lia. rewrite calls_S_end.
    pose proof (length_calls f k 0 h) as Hlen.
    destruct (calls f k 0 h) as [[vs xl] hl]. simpl in *.
    destruct (f xl hl) as [x' h']. simpl.
    by rewrite fill_next by (done || lia).
Qed.

(** X1: for n >= 0 and any callable that takes its argument as a float64
    and returns a float64 (as the lambdas of the notebook do),
    [rng_lambda] returns an array of n entries
    that holds, in order, the values of n successive calls, each call
    being given the value of the call before it (0 for the first), and it
    leaves the store as those calls leave it. *)
Theorem rng_lambda_is_calls (n : nat) (f : callable) (h : gmap loc rstate) :
  rng_lambda (Z.of_nat n) f h
  = (Return (Ndarray (calls f n 0 h).1.1), (calls f n 0 h).2)
  ∧ length (calls f n 0 h).1.1 = n.
Proof.
  split; [|apply length_calls].
  unfold rng_lambda, range.
  rewrite np_zeros_nonneg by lia. rewrite Nat2Z.id.
  rewrite calls_loop by done.
  by rewrite Nat.sub_diag, app_nil_r.
Qed.

(** X2: with n <= 0 [rng_lambda] never calls the callable and leaves the
    store as it was; it raises ValueError when n < 0 and returns the empty
    array when n = 0. *)
Theorem rng_lambda_without_steps (n : Z) (f : callable) (h : gmap loc rstate) :
  (n <= 0)%Z →
  rng_lambda n f h
  = (if (n <? 0)%Z then Raise ValueError else Return (Ndarray []), h).
Proof.
  intros Hn. unfold rng_lambda.
  destruct (Z.ltb_spec n 0) as [Hlt|Hge].
  - by rewrite np_zeros_negative.
  - assert (n = 0%Z) as -> by lia. reflexivity.
Qed.

(** ** Runs through one shared generator *)

Lemma draws_app (low high : float) (n m : nat) (g : rstate) :
  draws low high (n + m) g
  = draws low high n g ++ draws low high m (advance low high n g).
Proof.
  revert g. induction n as [|n IH]; intros g; simpl.
  - reflexivity.
  - destruct (rs_uniform low high g) as [u g']. simpl. by rewrite IH.
Qed.

Lemma shared_run (n : nat) (rng : loc) (g : rstate) (h : gmap loc rstate) :
  h !! rng = Some g →
  fst (rng_lambda (Z.of_nat n) (proposal rng) h)
  = Return (Ndarray (draws (-1) 1 n g))
  ∧ snd (rng_lambda (Z.of_nat n) (proposal rng) h) !! rng
    = Some (advance (-1) 1 n g).
Proof.
  intros Hg. unfold rng_lambda, range.
  rewrite np_zeros_nonneg by lia. rewrite Nat2Z.id.
  destruct (shared_loop rng g n n h Hg (le_n _)) as (x & h' & -> & Hadv).
  rewrite Nat.sub_diag, app_nil_r. by split.
Qed.

Lemma fresh_run (n : nat) (h : gmap loc rstate) :
  fst (rng_lambda (Z.of_nat n) density_generator h)
  = Return (Ndarray (replicate n (fst (rs_uniform (-1) 1 (RandomState 1729))))).
Proof.
  unfold rng_lambda, range.
  rewrite np_zeros_nonneg by lia. rewrite Nat2Z.id.
  destruct (fresh_loop n n h (le_n _)) as (x & h' & -> & _).
  by rewrite Nat.sub_diag, app_nil_r.
Qed.

(** X3: two calls of [rng_lambda] in a row through the closure over one
    generator object continue one stream: the array of the first call
    followed by the array of the second is the array one call of n + m
    steps returns. *)
Theorem shared_runs_concatenate (n m : nat) (rng : loc) (g : rstate)
    (h : gmap loc rstate) :
  h !! rng = Some g →
  ∃ first second,
    fst (rng_lambda (Z.of_nat n) (proposal rng) h) = Return (Ndarray first)
    ∧ fst (rng_lambda (Z.of_nat m) (proposal rng)
             (snd (rng_lambda (Z.of_nat n) (proposal rng) h)))
      = Return (Ndarray second)
    ∧ fst (rng_lambda (Z.of_nat (n + m)) (proposal rng) h)
      = Return (Ndarray (first ++ second)).
Proof.
  intros Hg.
  destruct (shared_run n rng g h Hg) as [H1 Hadv].
  destruct (shared_run m rng _ _ Hadv) as [H2 _].
  destruct (shared_run (n + m) rng g h Hg) as [H3 _].
  eexists _, _. split; [exact H1|]. split; [exact H2|].
  by rewrite H3, draws_app.
Qed.

(** X4: when the shared generator has just been seeded with 1729, the
    first entry of the array filled through it is the value that fills
    every entry of the array of the closure that seeds its own generator
    with 1729. *)
Theorem first_shared_draw_is_the_repeated_value (n : nat) (rng : loc)
    (h : gmap loc rstate) :
  h !! rng = Some (RandomState 1729) →
  ∃ v rest,
    fst (rng_lambda (Z.of_nat (S n)) (proposal rng) h)
      = Return (Ndarray (v :: rest))
    ∧ fst (rng_lambda (Z.of_nat (S n)) density_generator h)
      = Return (Ndarray (replicate (S n) v)).
Proof.
  intros Hg.
  destruct (shared_run (S n) rng _ h Hg) as [H1 _].
  rewrite H1, fresh_run. simpl.
  destruct (rs_uniform (-1) 1 (RandomState 1729)) as [v g']. simpl.
  by eexists _, _.
Qed.

(** ** More on [metropolis_algorithm] *)

Lemma accepted_count_bounds (ss : list step_info) :
  (0 <= accepted_count ss <= Z.of_nat (length ss))%Z.
Proof.
  unfold accepted_count.
  pose proof (length_filter (λ s, s_accept s = true) ss). lia.
Qed.

(** X5: in a run of n >= 1 steps the number of accepted proposals lies
    between 0 and n, and the one line printed carries a rate between 0
    and 1. *)
Theorem acceptance_rate_between_0_and_1 (rng : loc) (chain_start : float)
    (n : Z) (logtarget : float → float) (cgd : callable)
    (h : gmap loc rstate) :
  (1 <= n)%Z →
  ∃ q,
    stdout (metropolis_algorithm rng chain_start n logtarget cgd h)
      = [Acceptance_rate q]
    ∧ (0 <= q)%Q ∧ (q <= 1)%Q
    ∧ (0 <= accepted_count
              (steps (metropolis_algorithm rng chain_start n logtarget cgd h))
         <= n)%Z.
Proof.
  intros Hn.
  destruct (run_of_positive rng chain_start n logtarget cgd h Hn)
    as (m & [Hlen _ _ _ _ _] & ->).
  simpl. eexists. split; [reflexivity|].
  pose proof (accepted_count_bounds (m_log m)) as [Hlo Hhi].
  rewrite Hlen, Z2Nat.id in Hhi by lia.
  assert (0 < inject_Z n)%Q as Hpos.
  { change 0%Q with (inject_Z 0). rewrite <- Zlt_Qlt. lia. }
  split; [|split; [|lia]].
  - apply Qle_shift_div_l; [done|].
    rewrite Qmult_0_l. change 0%Q with (inject_Z 0). by rewrite <- Zle_Qle.
  - apply Qle_shift_div_r; [done|].
    rewrite Qmult_1_l. by rewrite <- Zle_Qle.
Qed.

Lemma loop_body_frame (ru rn : loc) (logtarget : float → float)
    (scale : float) (i : nat) (m : machine) (l : loc) :
  l ≠ ru → l ≠ rn →
  m_heap (loop_body ru logtarget (candidate_generating_density rn scale) i m) !! l
  = m_heap m !! l.
Proof.
  intros Hu Hn. unfold loop_body, candidate_generating_density, normal.
  destruct (rs_normal (m_heap m !!! rn)) as [z g].
  destruct (support_check _).
  - unfold uniform. destruct (rs_uniform 0 1 _) as [u g'].
    destruct (np_log u <? _)%float; simpl;
      by rewrite !lookup_insert_ne.
  - simpl. by rewrite lookup_insert_ne.
Qed.

Lemma for_in_frame (ru rn : loc) (logtarget : float → float)
    (scale : float) (idx : list nat) (m : machine) (l : loc) :
  l ≠ ru → l ≠ rn →
  m_heap (for_in idx
            (loop_body ru logtarget (candidate_generating_density rn scale)) m)
    !! l
  = m_heap m !! l.
Proof.
  intros Hu Hn. revert m. induction idx as [|i idx IH]; intros m; simpl.
  - reflexivity.
  - rewrite IH. by apply loop_body_frame.
Qed.

(** X6: a call of [metropolis_algorithm] with the notebook's proposal
    closure changes no generator object other than the one it is given
    and the one the closure holds, whatever n is. *)
Theorem other_generators_untouched (ru rn : loc) (chain_start : float)
    (n : Z) (logtarget : float → float) (scale : float)
    (h : gmap loc rstate) (l : loc) :
  l ≠ ru → l ≠ rn →
  final_heap (metropolis_algorithm ru chain_start n logtarget
                (candidate_generating_density rn scale) h) !! l
  = h !! l.
Proof.
  intros Hu Hn. unfold metropolis_algorithm.
  destruct (np_zeros n) as [chain|e]; [|reflexivity].
  destruct (true_div _ n); simpl; by apply for_in_frame.
Qed.




End MoreProperties.

(** ** The further properties on concrete inputs *)

Lemma rng_lambda_without_steps_witness :
  (-3 <= 0)%Z
  ∧ rng_lambda (-3) (proposal 1) Notebook.store
    = (if (-3 <? 0)%Z then Raise ValueError else Return (Ndarray []),
       Notebook.store).
Proof.
  split; [lia|].
  apply (rng_lambda_without_steps (NP := Scripted.numpy)). lia.
Defined.

Lemma shared_runs_concatenate_witness :
  Notebook.store !! 1%positive = Some (Scripted.script_of_seed 1729)
  ∧ ∃ first second,
      fst (rng_lambda (Z.of_nat 2) (proposal 1) Notebook.store)
        = Return (Ndarray first)
      ∧ fst (rng_lambda (Z.of_nat 1) (proposal 1)
               (snd (rng_lambda (Z.of_nat 2) (proposal 1) Notebook.store)))
        = Return (Ndarray second)
      ∧ fst (rng_lambda (Z.of_nat (2 + 1)) (proposal 1) Notebook.store)
        = Return (Ndarray (first ++ second)).
Proof.
  split; [reflexivity|].
  apply (shared_runs_concatenate (NP := Scripted.numpy) 2 1 1
           (Scripted.script_of_seed 1729) Notebook.store).
  reflexivity.
Defined.

Lemma first_shared_draw_is_the_repeated_value_witness :
  Notebook.store !! 1%positive = Some (RandomState 1729)
  ∧ ∃ v rest,
      fst (rng_lambda (Z.of_nat 3) (proposal 1) Notebook.store)
        = Return (Ndarray (v :: rest))
      ∧ fst (rng_lambda (Z.of_nat 3) density_generator Notebook.store)
        = Return (Ndarray (replicate 3 v)).
Proof.
  split; [reflexivity|].
  apply (first_shared_draw_is_the_repeated_value (NP := Scripted.numpy) 2 1
           Notebook.store).
  reflexivity.
Defined.

Lemma acceptance_rate_between_0_and_1_witness :
  (1 <= 4)%Z
  ∧ ∃ q,
      stdout (Notebook.call 1 0.5 4 Notebook.store) = [Acceptance_rate q]
      ∧ (0 <= q)%Q ∧ (q <= 1)%Q
      ∧ (0 <= accepted_count (steps (Notebook.call 1 0.5 4 Notebook.store))
           <= 4)%Z.
Proof.
  split; [lia|].
  apply (acceptance_rate_between_0_and_1 (NP := Scripted.numpy)). lia.
Defined.

Lemma other_generators_untouched_witness :
  2%positive ≠ 1%positive
  ∧ final_heap (Notebook.call 1 0.5 4 Notebook.store) !! 2%positive
    = Notebook.store !! 2%positive.
Proof.
  split; [discriminate|].
  apply (other_generators_untouched (NP := Scripted.numpy) 1 1 0.5 4
           (log_exponential 2) 0.6 Notebook.store 2); discriminate.
Defined.


